(** * DXT1 (S3TC) block compression: a shallow embedding of [dxt1.js]

    The JavaScript numbers that the compressor manipulates are all integers
    far below 2^53, so a number is a [Z]; the 32-bit conversions performed by
    the bitwise operators are written out.  A value that may be [undefined]
    (an out-of-range array read) or [NaN] (arithmetic on it) is an
    [option Z] whose [None] makes every comparison false. *)

From Stdlib Require Import ZArith Lia Bool List.
From stdpp Require Import base list.

Local Open Scope Z_scope.

(** ** JavaScript integer operators *)

Module JS.

Definition toInt32 (z : Z) : Z := (z + 2 ^ 31) mod 2 ^ 32 - 2 ^ 31.
Definition toUint32 (z : Z) : Z := z mod 2 ^ 32.

(** [a & b], [a | b], [a << n], [a >> n] *)
Definition and (a b : Z) : Z := Z.land (toInt32 a) (toInt32 b).
Definition or (a b : Z) : Z := Z.lor (toInt32 a) (toInt32 b).
Definition shl (a n : Z) : Z :=
  toInt32 (Z.shiftl (toInt32 a) (Z.land (toUint32 n) 31)).
Definition shr (a n : Z) : Z :=
  Z.shiftr (toInt32 a) (Z.land (toUint32 n) 31).

(** A value that can be [undefined] or [NaN]. *)
Definition num := option Z.

Definition sub (a b : num) : num :=
  match a, b with Some x, Some y => Some (x - y) | _, _ => None end.
Definition add (a b : num) : num :=
  match a, b with Some x, Some y => Some (x + y) | _, _ => None end.
Definition mul (a b : num) : num :=
  match a, b with Some x, Some y => Some (x * y) | _, _ => None end.

(** [a < b] and [a > b] where the right operand may be undefined. *)
Definition lt (a : Z) (b : num) : bool :=
  match b with Some y => a <? y | None => false end.
Definition gt (a : Z) (b : num) : bool :=
  match b with Some y => a >? y | None => false end.

(** What a call does: it returns, or throws a RangeError. *)
Inductive outcome (A : Type) : Type :=
| Returned (a : A)
| RangeError.
Arguments Returned {A} a.
Arguments RangeError {A}.

(** [a[i]] on an array or a typed array. *)
Definition get {A} (a : list A) (i : Z) : option A :=
  if i <? 0 then None else a !! Z.to_nat i.

(** [new Uint32Array(n)] *)
Definition newUint32Array (n : Z) : outcome (list Z) :=
  if n <? 0 then RangeError else Returned (replicate (Z.to_nat n) 0).

(** [a[i] = v] on a Uint32Array: the value is taken modulo 2^32 and a
    store outside the array is dropped. *)
Definition setU32 (a : list Z) (i v : Z) : list Z :=
  if i <? 0 then a else <[Z.to_nat i := toUint32 v]> a.

(** [target.set(source, offset)] on typed arrays of one element type: a
    source that does not fit at [offset] is refused. *)
Definition typedSet (target src : list Z) (offset : Z) : outcome (list Z) :=
  if Z.of_nat (length target) <? Z.of_nat (length src) + offset
  then RangeError
  else Returned (list_inserts (Z.to_nat offset) src target).

(** [for (var i = start; i < stop; i += step) body].  The recursion is on
    a bound on the number of iterations; by [for_loop_fuel] and
    [for_loop_inv] below, a bound of [stop - start] or more is never
    reached before the test fails. *)
Fixpoint for_loop {S : Type} (fuel : nat) (i stop step : Z)
         (body : Z -> S -> S) (s : S) : S :=
  match fuel with
  | O => s
  | Datatypes.S fuel' =>
      if i <? stop then for_loop fuel' (i + step) stop step body (body i s)
      else s
  end.

(** The same loop with a body that can throw. *)
Fixpoint for_loopE {S : Type} (fuel : nat) (i stop step : Z)
         (body : Z -> S -> outcome S) (s : S) : outcome S :=
  match fuel with
  | O => Returned s
  | Datatypes.S fuel' =>
      if i <? stop then
        match body i s with
        | Returned s' => for_loopE fuel' (i + step) stop step body s'
        | RangeError => RangeError
        end
      else Returned s
  end.

End JS.

(** ** Colour-space codec (dxt1.js, lines 20-61) *)

Definition toRGB565 (r g b : Z) : Z :=
  JS.or (JS.or (JS.shl (JS.and r 0xf8) 8) (JS.shl (JS.and g 0xfc) 3))
        (JS.shr b 3).

Definition rFromRGB565 (c : Z) : Z :=
  let r := JS.shr c 11 in
  JS.or (JS.shl r 3) (JS.shr r 2).

Definition gFromRGB565 (c : Z) : Z :=
  let g := JS.and (JS.shr c 5) 0x3f in
  JS.or (JS.shl g 2) (JS.shr g 4).

Definition bFromRGB565 (c : Z) : Z :=
  let b := JS.and c 0x1f in
  JS.or (JS.shl b 3) (JS.shr b 2).

Definition INSET_SHIFT : Z := 4.
Definition TRANSPARENT_BLOCK_SIZE : Z := 1024.

(** The fill pattern, built once when the module is loaded (lines 67-71). *)
Definition TRANSPARENT_BLOCK : list Z :=
  match JS.newUint32Array TRANSPARENT_BLOCK_SIZE with
  | JS.Returned a =>
      JS.for_loop 1024 0 TRANSPARENT_BLOCK_SIZE 1
        (fun i a => JS.setU32 a i 0xffffffff) a
  | JS.RangeError => []
  end.

(** ** The image driver (dxt1.js, lines 81-201) *)

Record ImageData := { width : Z; height : Z; data : list Z }.

(** The variables of [compress] that live across blocks: the output buffer,
    the write cursor and the three palette arrays allocated before the
    loops. *)
Record state := {
  compressed : list Z;
  currWord : Z;
  colorsR : list JS.num;
  colorsG : list JS.num;
  colorsB : list JS.num
}.

Record bbox := {
  maxR : Z; maxG : Z; maxB : Z;
  minR : Z; minG : Z; minB : Z
}.

(** [if (max < px) { max = px; }] and [if (min > px) { min = px; }] *)
Definition raise (cur : Z) (px : JS.num) : Z :=
  match px with
  | Some p => if JS.lt cur px then p else cur
  | None => cur
  end.

Definition lower (cur : Z) (px : JS.num) : Z :=
  match px with
  | Some p => if JS.gt cur px then p else cur
  | None => cur
  end.

(** One iteration of the bounding-box scan (lines 111-121). *)
Definition scanPixel (pixels : list Z) (w i j m : Z) (bb : bbox) : bbox :=
  let offset := 4 * ((i + JS.shr m 2) * w + j + JS.and m 3) in
  {| maxR := raise (maxR bb) (JS.get pixels offset);
     maxG := raise (maxG bb) (JS.get pixels (offset + 1));
     maxB := raise (maxB bb) (JS.get pixels (offset + 2));
     minR := lower (minR bb) (JS.get pixels offset);
     minG := lower (minG bb) (JS.get pixels (offset + 1));
     minB := lower (minB bb) (JS.get pixels (offset + 2)) |}.

Definition blockBBox (pixels : list Z) (w i j : Z) : bbox :=
  JS.for_loop 16 0 16 1 (scanPixel pixels w i j)
    {| maxR := 0; maxG := 0; maxB := 0;
       minR := 0xff; minG := 0xff; minB := 0xff |}.

(** The two guarded channel values of lines 129-139. *)
Definition insetOf (max min : Z) : Z := JS.shr (max - min) INSET_SHIFT.

Definition clampLow (max inset : Z) : Z :=
  if max >=? inset then max - inset else 0.

Definition clampHigh (min inset : Z) : Z :=
  if min + inset <? 255 then min + inset else 255.

(** [maxColor565] and [minColor565] as first computed (lines 125-139). *)
Definition blockEndpoints (bb : bbox) : Z * Z :=
  let insetR := insetOf (maxR bb) (minR bb) in
  let insetG := insetOf (maxG bb) (minG bb) in
  let insetB := insetOf (maxB bb) (minB bb) in
  let maxColor565 :=
    toRGB565 (clampLow (maxR bb) insetR) (clampLow (maxG bb) insetG)
             (clampLow (maxB bb) insetB) in
  let minColor565 :=
    toRGB565 (clampHigh (minR bb) insetR) (clampHigh (minG bb) insetG)
             (clampHigh (minB bb) insetB) in
  (maxColor565, minColor565).

(** The swap of lines 148-152. *)
Definition orderEndpoints (e : Z * Z) : Z * Z :=
  let '(maxColor565, minColor565) := e in
  if maxColor565 <? minColor565 then (minColor565, maxColor565)
  else (maxColor565, minColor565).

(** [(a / 3) | 0]: the quotient is a double, which [| 0] truncates toward
    zero before the 32-bit conversion. *)
Definition third (a : Z) : Z := JS.or (Z.quot a 3) 0.

(** The palette builder (lines 155-169), writing the three shared arrays.
    They are created with four slots by [new Array(4)], so the four stores
    are in range. *)
Definition setPalette (maxColor565 minColor565 : Z) (st : state) : state :=
  let colorsR0 := rFromRGB565 maxColor565 in
  let colorsG0 := gFromRGB565 maxColor565 in
  let colorsB0 := bFromRGB565 maxColor565 in
  let colorsR1 := rFromRGB565 minColor565 in
  let colorsG1 := gFromRGB565 minColor565 in
  let colorsB1 := bFromRGB565 minColor565 in
  let cR := <[1%nat := Some colorsR1]> (<[0%nat := Some colorsR0]> (colorsR st)) in
  let cG := <[1%nat := Some colorsG1]> (<[0%nat := Some colorsG0]> (colorsG st)) in
  let cB := <[1%nat := Some colorsB1]> (<[0%nat := Some colorsB0]> (colorsB st)) in
  let cR := <[2%nat := Some (third (colorsR1 + JS.shl colorsR0 1))]> cR in
  let cG := <[2%nat := Some (third (colorsG1 + JS.shl colorsG0 1))]> cG in
  let cB := <[2%nat := Some (third (colorsB1 + JS.shl colorsB0 1))]> cB in
  let cR := <[3%nat := Some (third (JS.shl colorsR1 1 + colorsR0))]> cR in
  let cG := <[3%nat := Some (third (JS.shl colorsG1 1 + colorsG0))]> cG in
  let cB := <[3%nat := Some (third (JS.shl colorsB1 1 + colorsB0))]> cB in
  {| compressed := compressed st; currWord := currWord st;
     colorsR := cR; colorsG := cG; colorsB := cB |}.

(** [colorsR[n]]: a hole of [new Array(4)] reads as undefined. *)
Definition entry (colors : list JS.num) (n : Z) : JS.num :=
  match JS.get colors n with Some v => v | None => None end.

(** [dR * dR + dG * dG + dB * dB] between the pixel at [offset] and
    palette entry [n] (lines 181-185). *)
Definition dist (pixels : list Z) (st : state) (offset n : Z) : JS.num :=
  let dR := JS.sub (JS.get pixels offset) (entry (colorsR st) n) in
  let dG := JS.sub (JS.get pixels (offset + 1)) (entry (colorsG st) n) in
  let dB := JS.sub (JS.get pixels (offset + 2)) (entry (colorsB st) n) in
  JS.add (JS.add (JS.mul dR dR) (JS.mul dG dG)) (JS.mul dB dB).

(** The inner loop over the palette (lines 175-191): the pair is
    [(minDist, idx)]. *)
Definition pickStep (pixels : list Z) (st : state) (offset n : Z)
           (acc : Z * Z) : Z * Z :=
  match dist pixels st offset n with
  | Some d => if JS.gt (fst acc) (Some d) then (d, n) else acc
  | None => acc
  end.

Definition pixelIndex (pixels : list Z) (st : state) (offset : Z) : Z :=
  snd (JS.for_loop 4 0 4 1 (pickStep pixels st offset) (200000000, 0)).

(** [compressed[currWord] |= v] *)
Definition orWord (st : state) (v : Z) : state :=
  let cur := match JS.get (compressed st) (currWord st) with
             | Some x => x | None => 0 end in
  {| compressed := JS.setU32 (compressed st) (currWord st) (JS.or cur v);
     currWord := currWord st;
     colorsR := colorsR st; colorsG := colorsG st; colorsB := colorsB st |}.

(** One iteration of the index assigner (lines 174-194). *)
Definition assignPixel (pixels : list Z) (w i j k : Z) (st : state) : state :=
  let offset := JS.shl ((i + JS.shr k 2) * w + j + JS.and k 3) 2 in
  let idx := pixelIndex pixels st offset in
  orWord st (JS.shl idx (JS.shl k 1)).

(** [compressed[currWord++] = v] *)
Definition emit (st : state) (v : Z) : state :=
  {| compressed := JS.setU32 (compressed st) (currWord st) v;
     currWord := currWord st + 1;
     colorsR := colorsR st; colorsG := colorsG st; colorsB := colorsB st |}.

(** [currWord++] *)
Definition advance (st : state) : state :=
  {| compressed := compressed st; currWord := currWord st + 1;
     colorsR := colorsR st; colorsG := colorsG st; colorsB := colorsB st |}.

(** The body of the block loop (lines 102-196). *)
Definition compressBlock (pixels : list Z) (w i j : Z) (st : state) : state :=
  let '(maxColor565, minColor565) := blockEndpoints (blockBBox pixels w i j) in
  if maxColor565 =? minColor565 then
    emit (emit st (JS.or (JS.shl maxColor565 16) maxColor565)) 0
  else
    let '(maxColor565, minColor565) :=
      orderEndpoints (maxColor565, minColor565) in
    let st := setPalette maxColor565 minColor565 st in
    let st := emit st (JS.or (JS.shl minColor565 16) maxColor565) in
    let st := JS.for_loop 16 0 16 1 (assignPixel pixels w i j) st in
    advance st.

(** [compress]: [Returned None] is the [null] of line 87. *)
Definition compress (img : ImageData) : JS.outcome (option (list Z)) :=
  let w := width img in
  let h := height img in
  if negb (JS.or (JS.and w 3) (JS.and h 3) =? 0) then JS.Returned None
  else
    let pixels := data img in
    match JS.newUint32Array (JS.shr (w * h) 3) with
    | JS.RangeError => JS.RangeError
    | JS.Returned buf =>
        let st0 := {| compressed := buf; currWord := 0;
                      colorsR := replicate 4 None;
                      colorsG := replicate 4 None;
                      colorsB := replicate 4 None |} in
        let st :=
          JS.for_loop (Z.to_nat h) 0 h 4
            (fun i st =>
               JS.for_loop (Z.to_nat w) 0 w 4
                 (fun j st => compressBlock pixels w i j st) st)
            st0 in
        JS.Returned (Some (compressed st))
    end.

(** ** The transparent-image generator (lines 210-221) *)

Definition getTransparentImage (width height : Z) : JS.outcome (list Z) :=
  let dataLength := JS.shr (width * height) 3 in
  match JS.newUint32Array dataLength with
  | JS.RangeError => JS.RangeError
  | JS.Returned data =>
      JS.for_loopE (Z.to_nat dataLength) 0 dataLength TRANSPARENT_BLOCK_SIZE
        (fun offset data => JS.typedSet data TRANSPARENT_BLOCK offset) data
  end.

(** ** Vocabulary of the specification *)

(** The field of [c] that occupies bits [hi] down to [lo]. *)
Definition field (c hi lo : Z) : Z :=
  Z.land (Z.shiftr c lo) (Z.ones (hi - lo + 1)).

(** [(v << shift) | (v >> (bits - shift))]: a [bits]-wide field widened to
    [bits + shift] bits by repeating its top bits below it. *)
Definition widen (bits shift v : Z) : Z :=
  Z.lor (Z.shiftl v shift) (Z.shiftr v (bits - shift)).

Definition byte (x : Z) : Prop := 0 <= x < 256.
Definition rgb565 (c : Z) : Prop := 0 <= c < 65536.

(** Unpacking after packing stays within [eR], [eG], [eB] of the input. *)
Definition roundtrip_within (eR eG eB r g b : Z) : Prop :=
  let c := toRGB565 r g b in
  Z.abs (rFromRGB565 c - r) <= eR /\
  Z.abs (gFromRGB565 c - g) <= eG /\
  Z.abs (bFromRGB565 c - b) <= eB.

(** Palette entry [n] as the three arrays hold it. *)
Definition paletteEntry (st : state) (n : Z) : JS.num * JS.num * JS.num :=
  (entry (colorsR st) n, entry (colorsG st) n, entry (colorsB st) n).

(** [expand]: a 16-bit colour as the RGB8 triple the palette holds. *)
Definition expand (c : Z) : Z * Z * Z :=
  (rFromRGB565 c, gFromRGB565 c, bFromRGB565 c).

(** [(a * p + b * q) / 3] on each channel, truncated. *)
Definition mix (a b : Z) (p q : Z * Z * Z) : Z * Z * Z :=
  let '(pr, pg, pb) := p in
  let '(qr, qg, qb) := q in
  (Z.quot (a * pr + b * qr) 3, Z.quot (a * pg + b * qg) 3,
   Z.quot (a * pb + b * qb) 3).

Definition known (p : Z * Z * Z) : JS.num * JS.num * JS.num :=
  let '(r, g, b) := p in (Some r, Some g, Some b).

(** Every element of a pixel buffer is a byte. *)
Definition bytes_ok (pixels : list Z) : bool :=
  forallb (fun x => (0 <=? x) && (x <? 256)) pixels.

(** What the two guards of lines 129-139 do on one channel: the first
    test always passes, the second fails only at 255, and the guarded
    values are the unguarded ones. *)
Definition guards_idle (max min : Z) : Prop :=
  let inset := insetOf max min in
  0 <= max - inset /\ (max >=? inset) = true /\
  min + inset <= 255 /\
  ((min + inset <? 255) = false -> min + inset = 255) /\
  clampLow max inset = max - inset /\
  clampHigh min inset = min + inset.

(** A well-formed input of [compress]: a [width] by [height] RGBA8 buffer. *)
Definition validImage (img : ImageData) : Prop :=
  0 <= width img /\ 0 <= height img /\
  Z.of_nat (length (data img)) = 4 * (width img * height img) /\
  bytes_ok (data img) = true.

(** The 4x4 block with top-left pixel at column [j] of row [i]. *)
Definition blockOf (img : ImageData) (i j : Z) : Prop :=
  0 <= i /\ i + 4 <= height img /\ 0 <= j /\ j + 4 <= width img.

(** One channel after any number of scanned pixels: either nothing was
    read and the bounds are the initial ones, or they are ordered bytes. *)
Definition channel_ok (max min : Z) : Prop :=
  (max = 0 /\ min = 255) \/ (0 <= min <= max /\ max <= 255).

Definition bbox_ok (bb : bbox) : Prop :=
  channel_ok (maxR bb) (minR bb) /\ channel_ok (maxG bb) (minG bb) /\
  channel_ok (maxB bb) (minB bb).

(** The bounds of one channel are bytes in order. *)
Definition ordered (max min : Z) : Prop := 0 <= min <= max /\ max <= 255.

(** The pixel buffer without its alpha bytes. *)
Fixpoint stripAlpha (pixels : list Z) : list Z :=
  match pixels with
  | r :: g :: b :: _ :: rest => r :: g :: b :: stripAlpha rest
  | tail => tail
  end.

(** The pixel in row [row], column [col], as [compress] reads it. *)
Definition pixelAt (img : ImageData) (row col : Z) : JS.num * JS.num * JS.num :=
  let o := 4 * (row * width img + col) in
  (JS.get (data img) o, JS.get (data img) (o + 1), JS.get (data img) (o + 2)).

Definition pixelIs (img : ImageData) (row col r g b : Z) : bool :=
  match pixelAt img row col with
  | (Some r', Some g', Some b') => (r' =? r) && (g' =? g) && (b' =? b)
  | _ => false
  end.

(** The sixteen pixels of the block at [(i, j)] all have colour
    [(r, g, b)]. *)
Definition solidBlock (img : ImageData) (i j r g b : Z) : bool :=
  forallb (fun m => pixelIs img (i + m / 4) (j + m mod 4) r g b)
          (map Z.of_nat (seq 0 16)).

(** Squared Euclidean distance between two RGB8 colours. *)
Definition sqDist (p q : Z * Z * Z) : Z :=
  let '(pr, pg, pb) := p in
  let '(qr, qg, qb) := q in
  (pr - qr) * (pr - qr) + (pg - qg) * (pg - qg) + (pb - qb) * (pb - qb).

(** The palette of a block with ordered endpoints, entry by entry. *)
Definition paletteOf (maxColor565 minColor565 : Z) (n : Z) : Z * Z * Z :=
  if n =? 0 then expand maxColor565
  else if n =? 1 then expand minColor565
  else if n =? 2 then mix 2 1 (expand maxColor565) (expand minColor565)
  else mix 1 2 (expand maxColor565) (expand minColor565).

(** [idx] is the first entry of [pal] at minimum squared distance from
    [px]: no entry is nearer, and every earlier entry is strictly farther. *)
Definition nearest (pal : Z -> Z * Z * Z) (px : Z * Z * Z) (idx : Z) : Prop :=
  0 <= idx < 4 /\
  (forall n, 0 <= n < 4 -> sqDist px (pal idx) <= sqDist px (pal n)) /\
  (forall n, 0 <= n < idx -> sqDist px (pal idx) < sqDist px (pal n)).

(** [idx 0 | idx 1 << 2 | ... | idx (n - 1) << 2 (n - 1)] *)
Fixpoint packIndices (idx : Z -> Z) (n : nat) : Z :=
  match n with
  | O => 0
  | S n' =>
      Z.lor (packIndices idx n') (Z.shiftl (idx (Z.of_nat n')) (2 * Z.of_nat n'))
  end.

(** One step of the running minimum over distances [D]. *)
Definition keepNearer (D : Z -> Z) (n : Z) (acc : Z * Z) : Z * Z :=
  if fst acc >? D n then (D n, n) else acc.

(** ** The two words of a block *)

(** The state [compress] starts from, over the buffer [buf]. *)
Definition freshState (buf : list Z) : state :=
  {| compressed := buf; currWord := 0;
     colorsR := replicate 4 None; colorsG := replicate 4 None;
     colorsB := replicate 4 None |}.

(** The value accumulated by the sixteen [|=] of the index assigner into a
    word that starts at 0, with the palette held by [pal]. *)
Definition indexWord (pixels : list Z) (w i j : Z) (pal : state) : Z :=
  JS.for_loop 16 0 16 1
    (fun k acc =>
       let offset := JS.shl ((i + JS.shr k 2) * w + j + JS.and k 3) 2 in
       JS.toUint32 (JS.or acc (JS.shl (pixelIndex pixels pal offset)
                                      (JS.shl k 1))))
    0.

(** The endpoint word and the index word that [compressBlock] stores. *)
Definition blockCode (pixels : list Z) (w i j : Z) : Z * Z :=
  let '(maxColor565, minColor565) := blockEndpoints (blockBBox pixels w i j) in
  if maxColor565 =? minColor565 then
    (JS.toUint32 (JS.or (JS.shl maxColor565 16) maxColor565), JS.toUint32 0)
  else
    let '(maxColor565, minColor565) :=
      orderEndpoints (maxColor565, minColor565) in
    (JS.toUint32 (JS.or (JS.shl minColor565 16) maxColor565),
     indexWord pixels w i j (setPalette maxColor565 minColor565 (freshState []))).

(** Word [p] of a buffer is [v], when the buffer reaches that far. *)
Definition wordAt (buf : list Z) (p v : Z) : Prop :=
  (Z.to_nat p < length buf)%nat -> buf !! Z.to_nat p = Some v.

Definition palette_sized (st : state) : Prop :=
  length (colorsR st) = 4%nat /\ length (colorsG st) = 4%nat /\
  length (colorsB st) = 4%nat.

(** The state after [n] blocks, counted row by row: their words are in
    place, the rest of the buffer is still zero, and the cursor is behind
    them. *)
Definition blocksDone (pixels : list Z) (w : Z) (len : nat) (n : Z)
           (st : state) : Prop :=
  currWord st = 2 * n /\ palette_sized st /\
  length (compressed st) = len /\
  (forall b, 0 <= b < n ->
     wordAt (compressed st) (2 * b)
       (fst (blockCode pixels w (4 * (b / (w / 4))) (4 * (b mod (w / 4))))) /\
     wordAt (compressed st) (2 * b + 1)
       (snd (blockCode pixels w (4 * (b / (w / 4))) (4 * (b mod (w / 4)))))) /\
  (forall p, 2 * n <= p -> wordAt (compressed st) p 0).

(** ** Sample inputs *)

(** Sixteen pixels, eight black then eight white. *)
Definition twoTone : list Z :=
  concat (replicate 8 [0; 0; 0; 255]) ++ concat (replicate 8 [255; 255; 255; 255]).

Definition twoToneImage : ImageData :=
  {| width := 4; height := 4; data := twoTone |}.

Definition solidImage (r g b : Z) : ImageData :=
  {| width := 4; height := 4; data := concat (replicate 16 [r; g; b; 255]) |}.

(** The same picture with every alpha byte set to [a]. *)
Fixpoint withAlpha (a : Z) (pixels : list Z) : list Z :=
  match pixels with
  | r :: g :: b :: _ :: rest => r :: g :: b :: a :: withAlpha a rest
  | tail => tail
  end.

Definition solidAlpha (img : ImageData) (a : Z) : ImageData :=
  {| width := width img; height := height img;
     data := withAlpha a (data img) |}.

(** A 4 pixels wide image of 2^27 black rows followed by the four rows of
    [twoTone]: the byte offsets of its last block start at 2^31. *)
Definition tallImage : ImageData :=
  {| width := 4; height := 2 ^ 27 + 4;
     data := replicate (Z.to_nat (2 ^ 31)) 0 ++ twoTone |}.

(** A 65536 by 32768 image: [width * height] is 2^31. *)
Definition overflowImage : ImageData :=
  {| width := 65536; height := 32768;
     data := replicate (Z.to_nat (4 * (65536 * 32768))) 0 |}.

(** ** Vocabulary for blocks and stacked images *)

(** The quantised fields of a colour, as [toRGB565] keeps them. *)
Definition quantised (r g b : Z) : Z * Z * Z := (r / 8, g / 4, b / 8).

(** Lexicographic order on triples. *)
Definition lexLt (p q : Z * Z * Z) : Prop :=
  let '(p1, p2, p3) := p in
  let '(q1, q2, q3) := q in
  p1 < q1 \/ (p1 = q1 /\ (p2 < q2 \/ (p2 = q2 /\ p3 < q3))).

(** [x] lies between [a] and [b], whichever is larger. *)
Definition between (a b x : Z) : Prop := Z.min a b <= x <= Z.max a b.

Definition sameNum (a b : JS.num) : bool :=
  match a, b with
  | Some x, Some y => x =? y
  | None, None => true
  | _, _ => false
  end.

(** The two images hold the same sixteen colours in the block at
    [(i, j)]. *)
Definition sameBlock (img1 img2 : ImageData) (i j : Z) : bool :=
  forallb
    (fun m =>
       let '(r1, g1, b1) := pixelAt img1 (i + m / 4) (j + m mod 4) in
       let '(r2, g2, b2) := pixelAt img2 (i + m / 4) (j + m mod 4) in
       sameNum r1 r2 && sameNum g1 g2 && sameNum b1 b2)
    (map Z.of_nat (seq 0 16)).

(** [top] with the rows of [bottom] below it. *)
Definition stackRows (top bottom : ImageData) : ImageData :=
  {| width := width top; height := height top + height bottom;
     data := data top ++ data bottom |}.

(** A 4 by 8 image declared over a buffer that only holds its first four
    rows. *)
Definition truncatedImage : ImageData :=
  {| width := 4; height := 8; data := twoTone |}.

(* ===================================================================== *)
(** * Facts about the integer operators *)

Section Int32.

Lemma toInt32_small z : - 2 ^ 31 <= z < 2 ^ 31 -> JS.toInt32 z = z.
Proof.
  intros Hz. unfold JS.toInt32.
  rewrite Z.mod_small by (change (2 ^ 32) with (2 ^ 31 + 2 ^ 31); lia). lia.
Qed.

Lemma toUint32_small z : 0 <= z < 2 ^ 32 -> JS.toUint32 z = z.
Proof. intros Hz. unfold JS.toUint32. now apply Z.mod_small. Qed.

Lemma toInt32_range z : - 2 ^ 31 <= JS.toInt32 z < 2 ^ 31.
Proof.
  unfold JS.toInt32.
  pose proof (Z.mod_pos_bound (z + 2 ^ 31) (2 ^ 32) eq_refl) as Hb.
  change (2 ^ 32) with (2 ^ 31 + 2 ^ 31) in *. lia.
Qed.

Lemma toInt32_congr z : exists q, JS.toInt32 z = z + 2 ^ 32 * q.
Proof.
  exists (- ((z + 2 ^ 31) / 2 ^ 32)). unfold JS.toInt32.
  rewrite Z.mod_eq by discriminate. lia.
Qed.

Lemma toUint32_toInt32 z : JS.toUint32 (JS.toInt32 z) = JS.toUint32 z.
Proof.
  destruct (toInt32_congr z) as [q ->]. unfold JS.toUint32.
  rewrite Z.mul_comm. apply Z_mod_plus_full.
Qed.

Lemma shift_amount n : 0 <= n < 32 -> Z.land (JS.toUint32 n) 31 = n.
Proof.
  intros Hn. rewrite toUint32_small by (change (2 ^ 32) with 4294967296; lia).
  change 31 with (Z.ones 5). rewrite Z.land_ones by lia.
  apply Z.mod_small. change (2 ^ 5) with 32. lia.
Qed.

Lemma shr_small a n :
  - 2 ^ 31 <= a < 2 ^ 31 -> 0 <= n < 32 -> JS.shr a n = a / 2 ^ n.
Proof.
  intros Ha Hn. unfold JS.shr.
  rewrite toInt32_small, shift_amount by assumption.
  apply Z.shiftr_div_pow2. lia.
Qed.

Lemma shl_small a n :
  0 <= n < 32 -> - 2 ^ 31 <= a < 2 ^ 31 -> - 2 ^ 31 <= a * 2 ^ n < 2 ^ 31 ->
  JS.shl a n = a * 2 ^ n.
Proof.
  intros Hn Ha Hr. unfold JS.shl.
  rewrite (toInt32_small a), shift_amount by assumption.
  rewrite Z.shiftl_mul_pow2 by lia. now apply toInt32_small.
Qed.

Lemma and_small a b :
  - 2 ^ 31 <= a < 2 ^ 31 -> - 2 ^ 31 <= b < 2 ^ 31 -> JS.and a b = Z.land a b.
Proof. intros Ha Hb. unfold JS.and. now rewrite !toInt32_small. Qed.

Lemma or_small a b :
  - 2 ^ 31 <= a < 2 ^ 31 -> - 2 ^ 31 <= b < 2 ^ 31 -> JS.or a b = Z.lor a b.
Proof. intros Ha Hb. unfold JS.or. now rewrite !toInt32_small. Qed.

(** Two fields that do not overlap: OR is addition. *)
Lemma lor_fields a b n :
  0 <= n -> 0 <= b < 2 ^ n -> Z.lor (a * 2 ^ n) b = a * 2 ^ n + b.
Proof.
  intros Hn Hb.
  assert (Hdisj : Z.land (a * 2 ^ n) b = 0).
  { apply Z.bits_inj'. intros k Hk. rewrite Z.land_spec, Z.bits_0.
    destruct (Z.lt_ge_cases k n) as [Hlt | Hge].
    - rewrite Z.mul_pow2_bits_low by lia. reflexivity.
    - rewrite <- (Z.mod_small b (2 ^ n)) by assumption.
      rewrite Z.mod_pow2_bits_high by lia. apply andb_false_r. }
  rewrite <- Z.lxor_lor by assumption.
  symmetry. now apply Z.add_nocarry_lxor.
Qed.

(** The low 32 bits of an OR only depend on the low 32 bits of its
    operands. *)
Lemma toUint32_or a b :
  JS.toUint32 (JS.or a b) = Z.lor (JS.toUint32 a) (JS.toUint32 b).
Proof.
  unfold JS.or, JS.toUint32.
  rewrite <- !Z.land_ones by lia.
  rewrite Z.land_lor_distr_l.
  rewrite !Z.land_ones by lia.
  fold (JS.toUint32 (JS.toInt32 a)). fold (JS.toUint32 (JS.toInt32 b)).
  now rewrite !toUint32_toInt32.
Qed.

End Int32.

(* ===================================================================== *)
(** * The colour-space codec *)

Section Codec.

(** Checking a decidable property on every number below a bound. *)
Lemma forall_below (P : Z -> bool) (n : nat) :
  forallb P (map Z.of_nat (seq 0 n)) = true ->
  forall z, 0 <= z < Z.of_nat n -> P z = true.
Proof.
  intros Hall z Hz. rewrite forallb_forall in Hall. apply Hall.
  apply in_map_iff. exists (Z.to_nat z). split; [lia |].
  apply in_seq. lia.
Qed.

Lemma land_248 r : 0 <= r < 256 -> Z.land r 248 = 8 * (r / 8).
Proof.
  intros Hr. apply Z.eqb_eq.
  apply (forall_below (fun r => Z.land r 248 =? 8 * (r / 8)) 256);
    [vm_compute; reflexivity | lia].
Qed.

Lemma land_252 g : 0 <= g < 256 -> Z.land g 252 = 4 * (g / 4).
Proof.
  intros Hg. apply Z.eqb_eq.
  apply (forall_below (fun g => Z.land g 252 =? 4 * (g / 4)) 256);
    [vm_compute; reflexivity | lia].
Qed.

Lemma div_bounds x d n : 0 < d -> 0 <= x < d * n -> 0 <= x / d < n.
Proof.
  intros Hd Hx. split.
  - apply Z.div_pos; lia.
  - apply Z.div_lt_upper_bound; lia.
Qed.

(** [toRGB565] as three fields laid side by side. *)
Lemma toRGB565_arith r g b :
  0 <= r < 256 -> 0 <= g < 256 -> 0 <= b < 256 ->
  toRGB565 r g b = 2048 * (r / 8) + 32 * (g / 4) + b / 8.
Proof.
  intros Hr Hg Hb. unfold toRGB565.
  pose proof (div_bounds r 8 32 eq_refl ltac:(lia)) as HR.
  pose proof (div_bounds g 4 64 eq_refl ltac:(lia)) as HG.
  pose proof (div_bounds b 8 32 eq_refl ltac:(lia)) as HB.
  rewrite (and_small r), (and_small g) by lia.
  rewrite land_248, land_252 by assumption.
  rewrite (shr_small b 3) by lia. change (2 ^ 3) with 8.
  rewrite (shl_small _ 8), (shl_small _ 3) by (change (2 ^ 8) with 256; lia).
  change (2 ^ 8) with 256. change (2 ^ 3) with 8.
  replace (8 * (r / 8) * 256) with (r / 8 * 2 ^ 11) by (change (2 ^ 11) with 2048; lia).
  rewrite (or_small (r / 8 * 2 ^ 11)) by (change (2 ^ 11) with 2048; lia).
  rewrite lor_fields by (change (2 ^ 11) with 2048; lia).
  replace (r / 8 * 2 ^ 11 + 4 * (g / 4) * 8)
    with ((r / 8 * 64 + g / 4) * 2 ^ 5) by (change (2 ^ 11) with 2048; change (2 ^ 5) with 32; lia).
  rewrite or_small by (change (2 ^ 5) with 32; lia).
  rewrite lor_fields by (change (2 ^ 5) with 32; lia).
  change (2 ^ 5) with 32. lia.
Qed.

Lemma toRGB565_range r g b :
  0 <= r < 256 -> 0 <= g < 256 -> 0 <= b < 256 ->
  0 <= toRGB565 r g b < 65536.
Proof.
  intros Hr Hg Hb. rewrite toRGB565_arith by assumption.
  pose proof (div_bounds r 8 32 eq_refl ltac:(lia)).
  pose proof (div_bounds g 4 64 eq_refl ltac:(lia)).
  pose proof (div_bounds b 8 32 eq_refl ltac:(lia)). lia.
Qed.

(** Widening a [bits]-wide field [v] to 8 bits: [8 - bits] low bits are
    filled with the top bits of [v]. *)
Lemma widen5 v : 0 <= v < 32 ->
  JS.or (JS.shl v 3) (JS.shr v 2) = 8 * v + v / 4.
Proof.
  intros Hv. rewrite (shl_small v 3), (shr_small v 2) by lia.
  change (2 ^ 2) with 4.
  pose proof (div_bounds v 4 8 eq_refl ltac:(lia)).
  rewrite or_small by (change (2 ^ 3) with 8; lia).
  rewrite lor_fields by (change (2 ^ 3) with 8; lia).
  change (2 ^ 3) with 8. lia.
Qed.

Lemma widen6 v : 0 <= v < 64 ->
  JS.or (JS.shl v 2) (JS.shr v 4) = 4 * v + v / 16.
Proof.
  intros Hv. rewrite (shl_small v 2), (shr_small v 4) by lia.
  change (2 ^ 4) with 16.
  pose proof (div_bounds v 16 4 eq_refl ltac:(lia)).
  rewrite or_small by (change (2 ^ 2) with 4; lia).
  rewrite lor_fields by (change (2 ^ 2) with 4; lia).
  change (2 ^ 2) with 4. lia.
Qed.

Lemma rFromRGB565_arith c : 0 <= c < 65536 ->
  rFromRGB565 c = 8 * (c / 2048) + c / 2048 / 4.
Proof.
  intros Hc. unfold rFromRGB565. cbv zeta.
  rewrite (shr_small c 11) by lia. change (2 ^ 11) with 2048.
  apply widen5. apply div_bounds; lia.
Qed.

Lemma gFromRGB565_arith c : 0 <= c < 65536 ->
  gFromRGB565 c = 4 * (c / 32 mod 64) + c / 32 mod 64 / 16.
Proof.
  intros Hc. unfold gFromRGB565. cbv zeta.
  rewrite (shr_small c 5) by lia. change (2 ^ 5) with 32.
  pose proof (div_bounds c 32 2048 eq_refl ltac:(lia)).
  rewrite and_small by lia.
  change 63 with (Z.ones 6). rewrite Z.land_ones by lia.
  change (2 ^ 6) with 64.
  apply widen6. apply Z.mod_pos_bound. lia.
Qed.

Lemma bFromRGB565_arith c : 0 <= c < 65536 ->
  bFromRGB565 c = 8 * (c mod 32) + c mod 32 / 4.
Proof.
  intros Hc. unfold bFromRGB565. cbv zeta.
  rewrite and_small by lia.
  change 31 with (Z.ones 5). rewrite Z.land_ones by lia.
  change (2 ^ 5) with 32.
  apply widen5. apply Z.mod_pos_bound. lia.
Qed.

Lemma rFromRGB565_range c : 0 <= c < 65536 -> 0 <= rFromRGB565 c < 256.
Proof.
  intros Hc. rewrite rFromRGB565_arith by assumption.
  pose proof (div_bounds c 2048 32 eq_refl ltac:(lia)).
  pose proof (div_bounds (c / 2048) 4 8 eq_refl ltac:(lia)). lia.
Qed.

Lemma gFromRGB565_range c : 0 <= c < 65536 -> 0 <= gFromRGB565 c < 256.
Proof.
  intros Hc. rewrite gFromRGB565_arith by assumption.
  pose proof (Z.mod_pos_bound (c / 32) 64 eq_refl).
  pose proof (div_bounds (c / 32 mod 64) 16 4 eq_refl ltac:(lia)). lia.
Qed.

Lemma bFromRGB565_range c : 0 <= c < 65536 -> 0 <= bFromRGB565 c < 256.
Proof.
  intros Hc. rewrite bFromRGB565_arith by assumption.
  pose proof (Z.mod_pos_bound c 32 eq_refl).
  pose proof (div_bounds (c mod 32) 4 8 eq_refl ltac:(lia)). lia.
Qed.

End Codec.

(* ===================================================================== *)
(** * Claims about the codec *)

Section CodecClaims.

Lemma field_div c hi lo :
  0 <= lo <= hi -> field c hi lo = c / 2 ^ lo mod 2 ^ (hi - lo + 1).
Proof.
  intros H. unfold field.
  rewrite Z.land_ones by lia. now rewrite Z.shiftr_div_pow2 by lia.
Qed.

Lemma widen_5_3 v : 0 <= v < 32 -> widen 5 3 v = 8 * v + v / 4.
Proof.
  intros Hv. unfold widen. change (5 - 3) with 2.
  rewrite Z.shiftl_mul_pow2, Z.shiftr_div_pow2 by lia.
  pose proof (div_bounds v 4 8 eq_refl ltac:(lia)).
  rewrite lor_fields by (change (2 ^ 3) with 8; change (2 ^ 2) with 4; lia).
  change (2 ^ 3) with 8. change (2 ^ 2) with 4. lia.
Qed.

Lemma widen_6_2 v : 0 <= v < 64 -> widen 6 2 v = 4 * v + v / 16.
Proof.
  intros Hv. unfold widen. change (6 - 2) with 4.
  rewrite Z.shiftl_mul_pow2, Z.shiftr_div_pow2 by lia.
  pose proof (div_bounds v 16 4 eq_refl ltac:(lia)).
  rewrite lor_fields by (change (2 ^ 2) with 4; change (2 ^ 4) with 16; lia).
  change (2 ^ 2) with 4. change (2 ^ 4) with 16. lia.
Qed.

(** C8. [toRGB565] of three bytes is a 16-bit value whose bits 15..11 are
    the top five bits of [r], bits 10..5 the top six bits of [g] and bits
    4..0 are [b >> 3]; each of the three unpack functions takes its field of
    a 16-bit colour and widens it by [(v << shift) | (v >> (bits - shift))]. *)
Theorem codec_bit_layout r g b c :
  byte r -> byte g -> byte b -> rgb565 c ->
  (rgb565 (toRGB565 r g b) /\
   field (toRGB565 r g b) 15 11 = Z.shiftr r 3 /\
   field (toRGB565 r g b) 10 5 = Z.shiftr g 2 /\
   field (toRGB565 r g b) 4 0 = Z.shiftr b 3) /\
  (rFromRGB565 c = widen 5 3 (field c 15 11) /\
   gFromRGB565 c = widen 6 2 (field c 10 5) /\
   bFromRGB565 c = widen 5 3 (field c 4 0)).
Proof.
  unfold byte, rgb565. intros Hr Hg Hb Hc. split.
  - split; [now apply toRGB565_range |].
    rewrite !field_div by lia. rewrite !Z.shiftr_div_pow2 by lia.
    rewrite toRGB565_arith by assumption.
    change (2 ^ 11) with 2048. change (2 ^ 5) with 32.
    change (2 ^ (15 - 11 + 1)) with 32. change (2 ^ (10 - 5 + 1)) with 64.
    change (2 ^ (4 - 0 + 1)) with 32. change (2 ^ 0) with 1.
    change (2 ^ 3) with 8. change (2 ^ 2) with 4.
    pose proof (div_bounds r 8 32 eq_refl ltac:(lia)).
    pose proof (div_bounds g 4 64 eq_refl ltac:(lia)).
    pose proof (div_bounds b 8 32 eq_refl ltac:(lia)).
    repeat split; Z.div_mod_to_equations; lia.
  - rewrite !field_div by lia.
    change (2 ^ 11) with 2048. change (2 ^ 5) with 32.
    change (2 ^ (15 - 11 + 1)) with 32. change (2 ^ (10 - 5 + 1)) with 64.
    change (2 ^ (4 - 0 + 1)) with 32. change (2 ^ 0) with 1.
    pose proof (div_bounds c 2048 32 eq_refl ltac:(lia)).
    rewrite (Z.mod_small (c / 2048)) by lia. rewrite Z.div_1_r.
    rewrite widen_5_3, widen_6_2, widen_5_3
      by (try apply Z.mod_pos_bound; lia).
    rewrite rFromRGB565_arith, gFromRGB565_arith, bFromRGB565_arith
      by assumption.
    auto.
Qed.

Lemma codec_bit_layout_witness :
  (byte 200 /\ byte 100 /\ byte 50 /\ rgb565 51494) /\
  (rgb565 (toRGB565 200 100 50) /\
   field (toRGB565 200 100 50) 15 11 = Z.shiftr 200 3 /\
   field (toRGB565 200 100 50) 10 5 = Z.shiftr 100 2 /\
   field (toRGB565 200 100 50) 4 0 = Z.shiftr 50 3) /\
  (rFromRGB565 51494 = widen 5 3 (field 51494 15 11) /\
   gFromRGB565 51494 = widen 6 2 (field 51494 10 5) /\
   bFromRGB565 51494 = widen 5 3 (field 51494 4 0)).
Proof.
  assert (H1 : byte 200) by (unfold byte; lia).
  assert (H2 : byte 100) by (unfold byte; lia).
  assert (H3 : byte 50) by (unfold byte; lia).
  assert (H4 : rgb565 51494) by (unfold rgb565; lia).
  split; [tauto |].
  exact (codec_bit_layout 200 100 50 51494 H1 H2 H3 H4).
Defined.

(** C2, as the code has it.  Unpacking a packed byte triple gives back each
    channel within 7 (red, blue) and 3 (green); white packs to [0xFFFF] and
    unpacks to white exactly. *)
Theorem roundtrip_error r g b :
  byte r -> byte g -> byte b ->
  roundtrip_within 7 3 7 r g b /\
  toRGB565 255 255 255 = 0xFFFF /\
  (rFromRGB565 0xFFFF, gFromRGB565 0xFFFF, bFromRGB565 0xFFFF)
  = (255, 255, 255).
Proof.
  unfold byte. intros Hr Hg Hb. split; [| split; reflexivity].
  unfold roundtrip_within. cbv zeta.
  pose proof (toRGB565_range r g b Hr Hg Hb) as Hc.
  rewrite rFromRGB565_arith, gFromRGB565_arith, bFromRGB565_arith
    by assumption.
  rewrite toRGB565_arith by assumption.
  pose proof (div_bounds r 8 32 eq_refl ltac:(lia)).
  pose proof (div_bounds g 4 64 eq_refl ltac:(lia)).
  pose proof (div_bounds b 8 32 eq_refl ltac:(lia)).
  repeat split; Z.div_mod_to_equations; lia.
Qed.

Lemma roundtrip_error_witness :
  (byte 7 /\ byte 3 /\ byte 7) /\
  roundtrip_within 7 3 7 7 3 7 /\
  toRGB565 255 255 255 = 0xFFFF /\
  (rFromRGB565 0xFFFF, gFromRGB565 0xFFFF, bFromRGB565 0xFFFF)
  = (255, 255, 255).
Proof.
  assert (H7 : byte 7) by (unfold byte; lia).
  assert (H3 : byte 3) by (unfold byte; lia).
  split; [tauto |].
  exact (roundtrip_error 7 3 7 H7 H3 H7).
Defined.

(** C2, as the specification words it, fails on the colour (7, 3, 7): all
    three channels unpack to 0, so red and blue are off by 7 and green by
    3. *)
Lemma roundtrip_4_2_4_fails :
  byte 7 /\ byte 3 /\
  rFromRGB565 (toRGB565 7 3 7) = 0 /\
  gFromRGB565 (toRGB565 7 3 7) = 0 /\
  bFromRGB565 (toRGB565 7 3 7) = 0 /\
  ~ roundtrip_within 4 2 4 7 3 7.
Proof.
  unfold byte. repeat split; try lia; try reflexivity.
  unfold roundtrip_within. vm_compute. intros [H _]. apply H. reflexivity.
Qed.

End CodecClaims.

(* ===================================================================== *)
(** * Loops *)

Section Loops.

Context {S : Type}.

(** An invariant carried through a [for] loop holds when the loop test
    fails, provided the bound on the iterations covers the range. *)
Lemma for_loop_inv (P : Z -> S -> Prop) (body : Z -> S -> S) stop step :
  0 < step ->
  (forall i s, i < stop -> P i s -> P (i + step) (body i s)) ->
  forall fuel i s,
    stop - i <= Z.of_nat fuel -> P i s ->
    exists i', stop <= i' /\ P i' (JS.for_loop fuel i stop step body s).
Proof.
  intros Hstep Hbody fuel. induction fuel as [| fuel IH]; intros i s Hfuel HP.
  - exists i. split; [lia | exact HP].
  - cbn [JS.for_loop]. destruct (Z.ltb_spec i stop) as [Hlt | Hge].
    + apply IH; [lia | now apply Hbody].
    + exists i. split; [lia | exact HP].
Qed.

(** Any bound that covers the range gives the same result. *)
Lemma for_loop_fuel (body : Z -> S -> S) stop step :
  0 < step ->
  forall fuel1 fuel2 i s,
    stop - i <= Z.of_nat fuel1 -> stop - i <= Z.of_nat fuel2 ->
    JS.for_loop fuel1 i stop step body s = JS.for_loop fuel2 i stop step body s.
Proof.
  intros Hstep fuel1.
  induction fuel1 as [| fuel1 IH]; intros fuel2 i s H1 H2.
  - destruct fuel2 as [| fuel2]; [reflexivity |]. cbn [JS.for_loop].
    destruct (Z.ltb_spec i stop); [lia | reflexivity].
  - destruct fuel2 as [| fuel2]; cbn [JS.for_loop];
      destruct (Z.ltb_spec i stop); try reflexivity; try lia.
    apply IH; lia.
Qed.

Lemma for_loop_sim {T : Type} (R : S -> T -> Prop) f g stop step :
  (forall i s t, R s t -> R (f i s) (g i t)) ->
  forall fuel i s t,
    R s t ->
    R (JS.for_loop fuel i stop step f s) (JS.for_loop fuel i stop step g t).
Proof.
  intros Hstep fuel. induction fuel as [| fuel IH]; intros i s t HR;
    [exact HR |].
  cbn [JS.for_loop]. destruct (i <? stop); [| exact HR].
  apply IH. now apply Hstep.
Qed.

Lemma for_loop_ext_in (f g : Z -> S -> S) stop step :
  0 < step ->
  forall fuel i s,
    (forall k s', i <= k < stop -> f k s' = g k s') ->
    JS.for_loop fuel i stop step f s = JS.for_loop fuel i stop step g s.
Proof.
  intros Hstep fuel. induction fuel as [| fuel IH]; intros i s Hfg;
    [reflexivity |].
  cbn [JS.for_loop]. destruct (Z.ltb_spec i stop) as [Hlt | Hge];
    [| reflexivity].
  rewrite Hfg by lia. apply IH. intros k s' Hk. apply Hfg. lia.
Qed.

Lemma for_loop_ext (f g : Z -> S -> S) stop step :
  (forall i s, f i s = g i s) ->
  forall fuel i s,
    JS.for_loop fuel i stop step f s = JS.for_loop fuel i stop step g s.
Proof.
  intros Hfg fuel. induction fuel as [| fuel IH]; intros i s; [reflexivity |].
  cbn [JS.for_loop]. destruct (i <? stop); [| reflexivity].
  rewrite Hfg. apply IH.
Qed.

End Loops.

(* ===================================================================== *)
(** * The bounding box and the inset guards *)

Section BBox.

Lemma bytes_ok_get pixels o x :
  bytes_ok pixels = true -> JS.get pixels o = Some x -> 0 <= x < 256.
Proof.
  unfold bytes_ok, JS.get. intros Hall Hget.
  destruct (o <? 0); [discriminate |].
  rewrite forallb_forall in Hall.
  assert (Hin : In x pixels).
  { apply list_elem_of_In. eapply list_elem_of_lookup_2. exact Hget. }
  specialize (Hall x Hin). lia.
Qed.

Lemma raise_lower_ok pixels o max min :
  bytes_ok pixels = true -> channel_ok max min ->
  channel_ok (raise max (JS.get pixels o)) (lower min (JS.get pixels o)).
Proof.
  intros Hb Hc. unfold raise, lower, JS.lt, JS.gt.
  destruct (JS.get pixels o) as [x |] eqn:Hx; [| exact Hc].
  pose proof (bytes_ok_get _ _ _ Hb Hx) as Hr.
  right. destruct (Z.ltb_spec max x), (Z.gtb_spec min x);
    destruct Hc as [[-> ->] | Hc]; lia.
Qed.

Lemma raise_lower_some pixels o x max min :
  bytes_ok pixels = true -> JS.get pixels o = Some x -> channel_ok max min ->
  0 <= lower min (JS.get pixels o) <= raise max (JS.get pixels o) /\
  raise max (JS.get pixels o) <= 255.
Proof.
  intros Hb Hx Hc. pose proof (bytes_ok_get _ _ _ Hb Hx) as Hr.
  rewrite Hx. unfold raise, lower, JS.lt, JS.gt.
  destruct (Z.ltb_spec max x), (Z.gtb_spec min x);
    destruct Hc as [[-> ->] | Hc]; lia.
Qed.

Lemma blockBBox_ok pixels w i j :
  bytes_ok pixels = true -> bbox_ok (blockBBox pixels w i j).
Proof.
  intros Hb. unfold blockBBox.
  destruct (for_loop_inv (fun _ bb => bbox_ok bb) (scanPixel pixels w i j)
              16 1 eq_refl) with (fuel := 16%nat) (i := 0)
      (s := {| maxR := 0; maxG := 0; maxB := 0;
               minR := 0xff; minG := 0xff; minB := 0xff |})
    as (m & _ & H); [| lia | | exact H].
  - intros m bb _ (HR & HG & HB). unfold scanPixel, bbox_ok. cbn.
    repeat split; now apply raise_lower_ok.
  - unfold bbox_ok, channel_ok. cbn. tauto.
Qed.

Lemma insetOf_div max min :
  - 256 <= max - min <= 256 -> insetOf max min = (max - min) / 16.
Proof.
  intros H. unfold insetOf, INSET_SHIFT.
  rewrite shr_small by (change (2 ^ 31) with 2147483648; lia). reflexivity.
Qed.

Lemma channel_guards max min : channel_ok max min -> guards_idle max min.
Proof.
  intros Hc. unfold guards_idle, clampLow, clampHigh. cbv zeta.
  rewrite insetOf_div by (destruct Hc as [[-> ->] | Hc]; lia).
  assert (Hi : max - (max - min) / 16 >= 0 /\ min + (max - min) / 16 <= 255).
  { destruct Hc as [[-> ->] | Hc]; [vm_compute; split; discriminate |].
    pose proof (div_bounds (max - min) 16 16 eq_refl ltac:(lia)).
    Z.div_mod_to_equations. lia. }
  destruct (Z.geb_spec max ((max - min) / 16)),
    (Z.ltb_spec (min + (max - min) / 16) 255); repeat split; try lia; congruence.
Qed.

End BBox.

(* ===================================================================== *)
(** * The palette *)

Section Palette.

Lemma third_quot a : 0 <= a < 2 ^ 31 -> third a = Z.quot a 3.
Proof.
  intros Ha. unfold third, JS.or.
  change (JS.toInt32 0) with 0. rewrite Z.lor_0_r.
  apply toInt32_small. rewrite Z.quot_div_nonneg by lia.
  pose proof (Z.div_pos a 3 ltac:(lia) eq_refl).
  pose proof (Z.div_le_upper_bound a 3 a eq_refl ltac:(lia)). lia.
Qed.

Lemma double_small a : 0 <= a < 256 -> JS.shl a 1 = 2 * a.
Proof.
  intros Ha. rewrite shl_small by (change (2 ^ 1) with 2; lia).
  change (2 ^ 1) with 2. lia.
Qed.

Lemma list4 {A} (l : list A) :
  length l = 4%nat -> exists a b c d, l = [a; b; c; d].
Proof.
  destruct l as [| a [| b [| c [| d [| e l]]]]]; try discriminate.
  intros _. now exists a, b, c, d.
Qed.

(** The arrays after the palette builder do not depend on what they held. *)
Lemma setPalette_colors maxC minC st :
  palette_sized st ->
  let st' := setPalette maxC minC st in
  let pal := setPalette maxC minC (freshState []) in
  colorsR st' = colorsR pal /\ colorsG st' = colorsG pal /\
  colorsB st' = colorsB pal /\ palette_sized st' /\
  compressed st' = compressed st /\ currWord st' = currWord st.
Proof.
  intros (HR & HG & HB).
  destruct (list4 _ HR) as (r0 & r1 & r2 & r3 & ER).
  destruct (list4 _ HG) as (g0 & g1 & g2 & g3 & EG).
  destruct (list4 _ HB) as (b0 & b1 & b2 & b3 & EB).
  unfold setPalette, palette_sized. cbn. rewrite ER, EG, EB. cbn. tauto.
Qed.

(** The four entries the palette builder leaves in the arrays. *)
Lemma setPalette_entries maxC minC st n :
  rgb565 maxC -> rgb565 minC -> palette_sized st -> 0 <= n < 4 ->
  paletteEntry (setPalette maxC minC st) n = known (paletteOf maxC minC n).
Proof.
  unfold rgb565. intros Hmax Hmin (HR & HG & HB) Hn.
  destruct (list4 _ HR) as (r0 & r1 & r2 & r3 & ER).
  destruct (list4 _ HG) as (g0 & g1 & g2 & g3 & EG).
  destruct (list4 _ HB) as (b0 & b1 & b2 & b3 & EB).
  pose proof (rFromRGB565_range _ Hmax). pose proof (rFromRGB565_range _ Hmin).
  pose proof (gFromRGB565_range _ Hmax). pose proof (gFromRGB565_range _ Hmin).
  pose proof (bFromRGB565_range _ Hmax). pose proof (bFromRGB565_range _ Hmin).
  unfold setPalette, paletteEntry, entry, JS.get, paletteOf, expand, mix, known.
  cbn [colorsR colorsG colorsB]. rewrite ER, EG, EB. cbn [insert list_insert].
  rewrite !double_small by assumption.
  rewrite !third_quot by (change (2 ^ 31) with 2147483648; lia).
  assert (Hcase : n = 0 \/ n = 1 \/ n = 2 \/ n = 3) by lia.
  destruct Hcase as [-> | [-> | [-> | ->]]]; cbn;
    repeat apply (f_equal2 pair); apply (f_equal Some);
    try reflexivity; apply (f_equal (fun a => Z.quot a 3)); lia.
Qed.

(** C7. The palette builder stores, channel by channel, the expanded max
    endpoint at index 0, the expanded min endpoint at index 1, and the
    truncated blends [(2 p0 + p1) / 3] and [(p0 + 2 p1) / 3] at indices 2
    and 3. *)
Theorem palette_formula maxColor565 minColor565 st :
  rgb565 maxColor565 -> rgb565 minColor565 -> palette_sized st ->
  let st' := setPalette maxColor565 minColor565 st in
  paletteEntry st' 0 = known (expand maxColor565) /\
  paletteEntry st' 1 = known (expand minColor565) /\
  paletteEntry st' 2 =
    known (mix 2 1 (expand maxColor565) (expand minColor565)) /\
  paletteEntry st' 3 =
    known (mix 1 2 (expand maxColor565) (expand minColor565)).
Proof.
  intros Hmax Hmin Hst. cbv zeta.
  rewrite !setPalette_entries by (assumption || lia).
  repeat split.
Qed.

Lemma palette_formula_witness :
  (rgb565 0xF79E /\ rgb565 0x0861 /\ palette_sized (freshState [])) /\
  let st' := setPalette 0xF79E 0x0861 (freshState []) in
  paletteEntry st' 0 = known (expand 0xF79E) /\
  paletteEntry st' 1 = known (expand 0x0861) /\
  paletteEntry st' 2 = known (mix 2 1 (expand 0xF79E) (expand 0x0861)) /\
  paletteEntry st' 3 = known (mix 1 2 (expand 0xF79E) (expand 0x0861)).
Proof.
  assert (H1 : rgb565 0xF79E) by (unfold rgb565; lia).
  assert (H2 : rgb565 0x0861) by (unfold rgb565; lia).
  assert (H3 : palette_sized (freshState [])) by (repeat split).
  split; [tauto |].
  exact (palette_formula 0xF79E 0x0861 (freshState []) H1 H2 H3).
Defined.

End Palette.

(* ===================================================================== *)
(** * One block *)

Section Block.

Lemma setU32_insert buf p v :
  0 <= p -> JS.setU32 buf p v = <[Z.to_nat p := JS.toUint32 v]> buf.
Proof.
  intros Hp. unfold JS.setU32. destruct (Z.ltb_spec p 0); [lia | reflexivity].
Qed.

Lemma get_lookup {A} (l : list A) p : 0 <= p -> JS.get l p = l !! Z.to_nat p.
Proof.
  intros Hp. unfold JS.get. destruct (Z.ltb_spec p 0); [lia | reflexivity].
Qed.

Lemma pixelIndex_colors pixels st st' o :
  colorsR st = colorsR st' -> colorsG st = colorsG st' ->
  colorsB st = colorsB st' ->
  pixelIndex pixels st o = pixelIndex pixels st' o.
Proof.
  intros HR HG HB. unfold pixelIndex. f_equal.
  apply for_loop_ext. intros n acc. unfold pickStep, dist.
  now rewrite HR, HG, HB.
Qed.

Lemma indexWord_colors pixels w i j st st' :
  colorsR st = colorsR st' -> colorsG st = colorsG st' ->
  colorsB st = colorsB st' ->
  indexWord pixels w i j st = indexWord pixels w i j st'.
Proof.
  intros HR HG HB. unfold indexWord. apply for_loop_ext. intros k acc.
  cbv zeta. now rewrite (pixelIndex_colors pixels st st').
Qed.

(** The sixteen [|=] of the index assigner only touch the word under the
    cursor, and leave there what [indexWord] computes. *)
Lemma index_loop pixels w i j st :
  0 <= currWord st ->
  wordAt (compressed st) (currWord st) 0 ->
  JS.for_loop 16 0 16 1 (assignPixel pixels w i j) st =
  {| compressed :=
       <[Z.to_nat (currWord st) := indexWord pixels w i j st]> (compressed st);
     currWord := currWord st;
     colorsR := colorsR st; colorsG := colorsG st; colorsB := colorsB st |}.
Proof.
  intros Hcw Hzero.
  set (R := fun (s : state) (acc : Z) =>
              s = {| compressed :=
                       <[Z.to_nat (currWord st) := acc]> (compressed st);
                     currWord := currWord st;
                     colorsR := colorsR st; colorsG := colorsG st;
                     colorsB := colorsB st |}).
  change (R (JS.for_loop 16 0 16 1 (assignPixel pixels w i j) st)
            (indexWord pixels w i j st)).
  unfold indexWord. apply for_loop_sim.
  - intros k s acc ->. unfold R, assignPixel, orWord. cbn.
    rewrite setU32_insert, get_lookup by assumption.
    rewrite list_insert_insert_eq.
    set (o := JS.shl ((i + JS.shr k 2) * w + j + JS.and k 3) 2).
    match goal with
    | |- context [pixelIndex pixels ?s o] =>
        rewrite (pixelIndex_colors pixels s st o) by reflexivity
    end.
    f_equal.
    destruct (Nat.lt_ge_cases (Z.to_nat (currWord st)) (length (compressed st)))
      as [Hin | Hout].
    + now rewrite list_lookup_insert_eq by assumption.
    + now rewrite !list_insert_ge by assumption.
  - unfold R. destruct st as [buf cw cR cG cB]. cbn in *. f_equal.
    symmetry. now apply list_insert_id'.
Qed.

Lemma emit_spec st v :
  0 <= currWord st ->
  emit st v =
  {| compressed := <[Z.to_nat (currWord st) := JS.toUint32 v]> (compressed st);
     currWord := currWord st + 1;
     colorsR := colorsR st; colorsG := colorsG st; colorsB := colorsB st |}.
Proof. intros Hcw. unfold emit. now rewrite setU32_insert. Qed.

(** What a block does to the state: two words at the cursor, which moves on
    by two. *)
Lemma compressBlock_code pixels w i j st :
  0 <= currWord st -> palette_sized st ->
  wordAt (compressed st) (currWord st + 1) 0 ->
  let st' := compressBlock pixels w i j st in
  let code := blockCode pixels w i j in
  currWord st' = currWord st + 2 /\ palette_sized st' /\
  compressed st' =
    <[Z.to_nat (currWord st + 1) := snd code]>
      (<[Z.to_nat (currWord st) := fst code]> (compressed st)).
Proof.
  intros Hcw Hpal Hzero. cbv zeta. unfold compressBlock, blockCode.
  destruct (blockEndpoints (blockBBox pixels w i j)) as [maxC minC].
  destruct (maxC =? minC).
  - rewrite !emit_spec by (rewrite ?emit_spec by assumption; cbn; lia).
    cbn. repeat split; try apply Hpal. lia.
  - destruct (orderEndpoints (maxC, minC)) as [hi lo].
    destruct (setPalette_colors hi lo st Hpal)
      as (ER & EG & EB & Hsized & Ebuf & Ecw).
    set (pal := setPalette hi lo (freshState [])) in *.
    set (s1 := emit (setPalette hi lo st) (JS.or (JS.shl lo 16) hi)).
    assert (Es1 : s1 =
      {| compressed :=
           <[Z.to_nat (currWord st) := JS.toUint32 (JS.or (JS.shl lo 16) hi)]>
             (compressed st);
         currWord := currWord st + 1;
         colorsR := colorsR pal; colorsG := colorsG pal;
         colorsB := colorsB pal |}).
    { unfold s1. rewrite emit_spec by lia.
      now rewrite Ebuf, Ecw, ER, EG, EB. }
    rewrite index_loop.
    + rewrite (indexWord_colors pixels w i j s1 pal)
        by (rewrite Es1; reflexivity).
      rewrite Es1. cbn. repeat split; try lia.
      all: try (rewrite <- ?ER, <- ?EG, <- ?EB; apply Hsized).
    + rewrite Es1. cbn. lia.
    + rewrite Es1. cbn. unfold wordAt in *. rewrite length_insert.
      intros Hlt. rewrite list_lookup_insert_ne by lia. now apply Hzero.
Qed.

End Block.

(* ===================================================================== *)
(** * The block grid *)

Section Grid.

Lemma land3_mod4 w : JS.and w 3 = w mod 4.
Proof.
  unfold JS.and. change (JS.toInt32 3) with (Z.ones 2).
  rewrite Z.land_ones by lia. change (2 ^ 2) with 4.
  destruct (toInt32_congr w) as [q ->].
  replace (w + 2 ^ 32 * q) with (w + q * 2 ^ 30 * 4)
    by (change (2 ^ 32) with (2 ^ 30 * 4); lia).
  apply Z_mod_plus_full.
Qed.

Lemma guard_iff w h :
  (JS.or (JS.and w 3) (JS.and h 3) =? 0) = true <->
  w mod 4 = 0 /\ h mod 4 = 0.
Proof.
  rewrite !land3_mod4, Z.eqb_eq.
  pose proof (Z.mod_pos_bound w 4 eq_refl).
  pose proof (Z.mod_pos_bound h 4 eq_refl).
  rewrite or_small by (change (2 ^ 31) with 2147483648; lia).
  apply Z.lor_eq_0_iff.
Qed.

Lemma blocksDone_step pixels w len n st i j :
  0 <= n -> i = 4 * (n / (w / 4)) -> j = 4 * (n mod (w / 4)) ->
  blocksDone pixels w len n st ->
  blocksDone pixels w len (n + 1) (compressBlock pixels w i j st).
Proof.
  intros Hn -> -> (Hcw & Hpal & Hlen & Hdone & Hrest).
  destruct (compressBlock_code pixels w (4 * (n / (w / 4)))
              (4 * (n mod (w / 4))) st) as (Hcw' & Hpal' & Hbuf).
  { lia. } { exact Hpal. } { apply Hrest. lia. }
  rewrite Hcw in Hbuf. cbv zeta in Hbuf.
  set (code := blockCode pixels w _ _) in Hbuf.
  unfold blocksDone. rewrite Hbuf, Hcw'.
  split; [lia |]. split; [exact Hpal' |]. unfold wordAt in *.
  rewrite !length_insert. split; [exact Hlen |]. split.
  - intros b Hb. destruct (Z.eq_dec b n) as [-> | Hne].
    + fold code. split; intros Hlt.
      * rewrite list_lookup_insert_ne by lia.
        apply list_lookup_insert_eq. exact Hlt.
      * apply list_lookup_insert_eq. now rewrite length_insert.
    + split; intros Hlt; rewrite !list_lookup_insert_ne by lia;
        apply Hdone; (lia || exact Hlt).
  - intros p Hp Hlt. rewrite !list_lookup_insert_ne by lia.
    apply Hrest; (lia || exact Hlt).
Qed.

Lemma grid_div bi bj W4 : 0 <= bj < W4 -> (bi * W4 + bj) / W4 = bi.
Proof.
  intros H. rewrite Z.div_add_l by lia. rewrite Z.div_small by lia. lia.
Qed.

Lemma grid_mod bi bj W4 : 0 <= bj < W4 -> (bi * W4 + bj) mod W4 = bj.
Proof.
  intros H. rewrite Z.add_comm, Z.mod_add by lia. now apply Z.mod_small.
Qed.

(** One row of blocks. *)
Lemma row_loop pixels w len bi st :
  0 <= w -> w mod 4 = 0 -> 0 <= bi ->
  blocksDone pixels w len (bi * (w / 4)) st ->
  blocksDone pixels w len ((bi + 1) * (w / 4))
    (JS.for_loop (Z.to_nat w) 0 w 4
       (fun j st => compressBlock pixels w (4 * bi) j st) st).
Proof.
  intros Hw Hw4 Hbi Hst.
  assert (Ew : w = 4 * (w / 4)) by (apply Z_div_exact_full_2; lia).
  pose proof (Z.div_pos w 4 Hw eq_refl) as HW4.
  destruct (for_loop_inv
              (fun j s => exists bj, j = 4 * bj /\ 0 <= bj <= w / 4 /\
                                   blocksDone pixels w len (bi * (w / 4) + bj) s)
              (fun j st => compressBlock pixels w (4 * bi) j st) w 4 eq_refl)
    with (fuel := Z.to_nat w) (i := 0) (s := st) as (j' & Hj' & bj & -> & Hbj & H).
  - intros j s Hj (bj & -> & Hbj & Hs). exists (bj + 1).
    split; [lia |]. split; [lia |].
    rewrite Z.add_assoc. apply blocksDone_step; [nia | | | exact Hs].
    + rewrite grid_div by lia. reflexivity.
    + rewrite grid_mod by lia. reflexivity.
  - lia.
  - exists 0. split; [lia |]. split; [lia |]. now rewrite Z.add_0_r.
  - replace ((bi + 1) * (w / 4)) with (bi * (w / 4) + bj) by lia. exact H.
Qed.

(** All rows. *)
Lemma grid_loop pixels w len h st :
  0 <= w -> w mod 4 = 0 -> 0 <= h -> h mod 4 = 0 ->
  blocksDone pixels w len 0 st ->
  blocksDone pixels w len (h / 4 * (w / 4))
    (JS.for_loop (Z.to_nat h) 0 h 4
       (fun i st =>
          JS.for_loop (Z.to_nat w) 0 w 4
            (fun j st => compressBlock pixels w i j st) st) st).
Proof.
  intros Hw Hw4 Hh Hh4 Hst.
  assert (Eh : h = 4 * (h / 4)) by (apply Z_div_exact_full_2; lia).
  pose proof (Z.div_pos h 4 Hh eq_refl) as HH4.
  destruct (for_loop_inv
              (fun i s => exists bi, i = 4 * bi /\ 0 <= bi <= h / 4 /\
                                   blocksDone pixels w len (bi * (w / 4)) s)
              (fun i st =>
                 JS.for_loop (Z.to_nat w) 0 w 4
                   (fun j st => compressBlock pixels w i j st) st) h 4 eq_refl)
    with (fuel := Z.to_nat h) (i := 0) (s := st) as (i' & Hi' & bi & -> & Hbi & H).
  - intros i s Hi (bi & -> & Hbi & Hs). exists (bi + 1).
    split; [lia |]. split; [lia |]. apply row_loop; (assumption || lia).
  - lia.
  - exists 0. split; [lia |]. split; [lia |]. exact Hst.
  - replace (h / 4) with bi by lia. exact H.
Qed.

Lemma blocksDone_fresh pixels w n :
  blocksDone pixels w n 0 (freshState (replicate n 0)).
Proof.
  unfold blocksDone, freshState, palette_sized. cbn [currWord compressed colorsR colorsG colorsB].
  split; [reflexivity |]. split; [now rewrite !length_replicate |].
  split; [apply length_replicate |]. split; [intros b Hb; lia |].
  unfold wordAt. intros p _ Hlt. rewrite length_replicate in Hlt.
  now apply lookup_replicate_2.
Qed.

(** [compress] is the guard, the allocation and the block grid. *)
Lemma compress_unfold img :
  compress img =
  if negb (JS.or (JS.and (width img) 3) (JS.and (height img) 3) =? 0)
  then JS.Returned None
  else
    match JS.newUint32Array (JS.shr (width img * height img) 3) with
    | JS.RangeError => JS.RangeError
    | JS.Returned buf =>
        JS.Returned
          (Some (compressed
                   (JS.for_loop (Z.to_nat (height img)) 0 (height img) 4
                      (fun i st =>
                         JS.for_loop (Z.to_nat (width img)) 0 (width img) 4
                           (fun j st =>
                              compressBlock (data img) (width img) i j st) st)
                      (freshState buf))))
    end.
Proof. reflexivity. Qed.

(** What [compress] returns for dimensions that pass the guard: a buffer of
    [(w * h) >> 3] words that holds the code of every block of the grid
    (as far as the buffer reaches). *)
Lemma compress_blocks img out :
  0 <= width img -> 0 <= height img ->
  compress img = JS.Returned (Some out) ->
  width img mod 4 = 0 /\ height img mod 4 = 0 /\
  length out = Z.to_nat (JS.shr (width img * height img) 3) /\
  forall bi bj,
    0 <= bi < height img / 4 -> 0 <= bj < width img / 4 ->
    wordAt out (2 * (bi * (width img / 4) + bj))
      (fst (blockCode (data img) (width img) (4 * bi) (4 * bj))) /\
    wordAt out (2 * (bi * (width img / 4) + bj) + 1)
      (snd (blockCode (data img) (width img) (4 * bi) (4 * bj))).
Proof.
  intros Hw Hh. rewrite compress_unfold.
  destruct (JS.or (JS.and (width img) 3) (JS.and (height img) 3) =? 0)
    eqn:Hguard; cbn [negb]; [| discriminate].
  apply guard_iff in Hguard. destruct Hguard as [Hw4 Hh4].
  unfold JS.newUint32Array.
  destruct (JS.shr (width img * height img) 3 <? 0); [discriminate |].
  generalize (Z.to_nat (JS.shr (width img * height img) 3)). intros n.
  pose proof (grid_loop (data img) (width img) n (height img)
                (freshState (replicate n 0)) Hw Hw4 Hh Hh4
                (blocksDone_fresh _ _ _))
    as (Hcw & Hpal & Hlen & Hdone & Hrest).
  revert Hlen Hdone.
  generalize (JS.for_loop (Z.to_nat (height img)) 0 (height img) 4
                (fun i st =>
                   JS.for_loop (Z.to_nat (width img)) 0 (width img) 4
                     (fun j st =>
                        compressBlock (data img) (width img) i j st) st)
                (freshState (replicate n 0))).
  intros st Hlen Hdone Hout.
  assert (Eout : out = compressed st) by congruence. subst out.
  split; [exact Hw4 |]. split; [exact Hh4 |]. split; [exact Hlen |].
  intros bi bj Hbi Hbj.
  assert (Hb : 0 <= bi * (width img / 4) + bj
                 < height img / 4 * (width img / 4)) by nia.
  specialize (Hdone _ Hb).
  rewrite grid_div, grid_mod in Hdone by lia.
  exact Hdone.
Qed.

End Grid.

(* ===================================================================== *)
(** * Dimensions: the guard and the size of the result *)

Section Dimensions.

Lemma compress_null_iff img :
  compress img = JS.Returned None <->
  ~ (width img mod 4 = 0 /\ height img mod 4 = 0).
Proof.
  rewrite compress_unfold, <- guard_iff.
  destruct (JS.or (JS.and (width img) 3) (JS.and (height img) 3) =? 0);
    cbn [negb].
  - split; [| intros H; now destruct H].
    destruct (JS.newUint32Array _); discriminate.
  - split; [discriminate | reflexivity].
Qed.

Lemma compress_returns img :
  width img mod 4 = 0 -> height img mod 4 = 0 ->
  0 <= width img * height img < 2 ^ 31 ->
  exists out, compress img = JS.Returned (Some out).
Proof.
  intros Hw4 Hh4 Hsize. rewrite compress_unfold.
  destruct (proj2 (guard_iff (width img) (height img)) (conj Hw4 Hh4)).
  rewrite (proj2 (guard_iff (width img) (height img)) (conj Hw4 Hh4)).
  cbn [negb]. unfold JS.newUint32Array.
  rewrite shr_small by lia.
  pose proof (Z.div_pos (width img * height img) (2 ^ 3) ltac:(lia) eq_refl).
  destruct (Z.ltb_spec (width img * height img / 2 ^ 3) 0); [lia |].
  eexists. reflexivity.
Qed.

(** Between 2^31 and 2^32 the product wraps to a negative length. *)
Lemma compress_range_error img :
  width img mod 4 = 0 -> height img mod 4 = 0 ->
  2 ^ 31 <= width img * height img < 2 ^ 32 ->
  compress img = JS.RangeError.
Proof.
  intros Hw4 Hh4 Hsize. rewrite compress_unfold.
  rewrite (proj2 (guard_iff (width img) (height img)) (conj Hw4 Hh4)).
  cbn [negb]. unfold JS.newUint32Array.
  assert (Hneg : JS.shr (width img * height img) 3 < 0).
  { unfold JS.shr. apply Z.shiftr_neg.
    pose proof (toInt32_range (width img * height img)).
    unfold JS.toInt32 in *.
    replace (width img * height img + 2 ^ 31)
      with (width img * height img - 2 ^ 31 + 1 * 2 ^ 32)
      by (change (2 ^ 32) with (2 ^ 31 + 2 ^ 31); lia).
    rewrite Z_mod_plus_full.
    rewrite Z.mod_small by (change (2 ^ 32) with (2 ^ 31 + 2 ^ 31); lia).
    change (2 ^ 32) with (2 ^ 31 + 2 ^ 31) in Hsize. lia. }
  destruct (Z.ltb_spec (JS.shr (width img * height img) 3) 0); [reflexivity | lia].
Qed.

(** C3, as the code has it.  For dimensions whose product is below 2^31,
    [compress] returns [null] exactly when the width or the height is not a
    multiple of 4, and otherwise returns a buffer of [W * H / 8] words; a
    [null] result carries no buffer. *)
Theorem compress_dimensions img :
  0 <= width img -> 0 <= height img -> width img * height img < 2 ^ 31 ->
  (compress img = JS.Returned None <->
   ~ (width img mod 4 = 0 /\ height img mod 4 = 0)) /\
  (width img mod 4 = 0 /\ height img mod 4 = 0 ->
   exists out, compress img = JS.Returned (Some out) /\
               Z.of_nat (length out) = width img * height img / 8).
Proof.
  intros Hw Hh Hsize. split; [apply compress_null_iff |].
  intros [Hw4 Hh4].
  destruct (compress_returns img Hw4 Hh4 ltac:(nia)) as [out Hout].
  exists out. split; [exact Hout |].
  destruct (compress_blocks img out Hw Hh Hout) as (_ & _ & Hlen & _).
  rewrite Hlen, shr_small by nia.
  rewrite Z2Nat.id by (apply Z.div_pos; [nia | reflexivity]). reflexivity.
Qed.

Lemma compress_dimensions_witness :
  (0 <= width twoToneImage /\ 0 <= height twoToneImage /\
   width twoToneImage * height twoToneImage < 2 ^ 31) /\
  (compress twoToneImage = JS.Returned None <->
   ~ (width twoToneImage mod 4 = 0 /\ height twoToneImage mod 4 = 0)) /\
  (width twoToneImage mod 4 = 0 /\ height twoToneImage mod 4 = 0 ->
   exists out, compress twoToneImage = JS.Returned (Some out) /\
               Z.of_nat (length out)
               = width twoToneImage * height twoToneImage / 8).
Proof.
  assert (H1 : 0 <= width twoToneImage) by (cbn; lia).
  assert (H2 : 0 <= height twoToneImage) by (cbn; lia).
  assert (H3 : width twoToneImage * height twoToneImage < 2 ^ 31)
    by (vm_compute; reflexivity).
  split; [tauto |]. exact (compress_dimensions twoToneImage H1 H2 H3).
Defined.

Lemma bytes_ok_replicate n x :
  0 <= x < 256 -> bytes_ok (replicate n x) = true.
Proof.
  intros Hx. unfold bytes_ok. induction n as [| n IH]; [reflexivity |].
  cbn [replicate forallb]. rewrite IH.
  destruct (Z.leb_spec 0 x), (Z.ltb_spec x 256); (reflexivity || lia).
Qed.

(** C3, as the specification words it, fails on a 65536 by 32768 image:
    both dimensions are multiples of 4 and the pixel buffer has the right
    size, yet [width * height >> 3] is negative and the allocation throws. *)
Lemma compress_overflow_fails :
  validImage overflowImage /\
  width overflowImage mod 4 = 0 /\ height overflowImage mod 4 = 0 /\
  compress overflowImage = JS.RangeError /\
  ~ (exists out, compress overflowImage = JS.Returned (Some out)).
Proof.
  assert (Hfail : compress overflowImage = JS.RangeError).
  { apply compress_range_error; [reflexivity | reflexivity |].
    change (width overflowImage * height overflowImage) with (2 ^ 31).
    split; [lia | reflexivity]. }
  split; [| split; [reflexivity | split; [reflexivity | split]]].
  - unfold validImage.
    change (width overflowImage) with 65536.
    change (height overflowImage) with 32768.
    change (data overflowImage)
      with (replicate (Z.to_nat (4 * (65536 * 32768))) 0).
    split; [lia |]. split; [lia |]. split.
    + rewrite length_replicate. apply Z2Nat.id. lia.
    + apply bytes_ok_replicate. lia.
  - exact Hfail.
  - intros [out Hout]. rewrite Hfail in Hout. discriminate.
Qed.

(** The 5-wide case of the specification, and two sizes it names. *)
Example compress_width_5 :
  compress {| width := 5; height := 4; data := replicate 80 0 |}
  = JS.Returned None.
Proof. reflexivity. Qed.

Example compress_8_by_4 :
  compress {| width := 8; height := 4; data := twoTone ++ twoTone |}
  = JS.Returned (Some [140638110; 0x00550055; 140638110; 0x00550055]).
Proof. vm_compute. reflexivity. Qed.

End Dimensions.

(* ===================================================================== *)
(** * The alpha channel *)

Section Alpha.

Lemma shl2_multiple x : exists q, JS.shl x 2 = 4 * q.
Proof.
  unfold JS.shl. change (Z.land (JS.toUint32 2) 31) with 2.
  rewrite Z.shiftl_mul_pow2 by lia. change (2 ^ 2) with 4.
  destruct (toInt32_congr (JS.toInt32 x * 4)) as [q ->].
  exists (JS.toInt32 x + 2 ^ 30 * q).
  change (2 ^ 32) with (4 * 2 ^ 30). lia.
Qed.

(** Two buffers that agree on the three colour bytes of every pixel. *)
Lemma compressBlock_ext p1 p2 w i j st :
  (forall q c, 0 <= c < 3 -> JS.get p1 (4 * q + c) = JS.get p2 (4 * q + c)) ->
  compressBlock p1 w i j st = compressBlock p2 w i j st.
Proof.
  intros Hagree.
  assert (H0 : forall q, JS.get p1 (4 * q) = JS.get p2 (4 * q)).
  { intros q. rewrite <- (Z.add_0_r (4 * q)). apply Hagree. lia. }
  assert (Hbb : blockBBox p1 w i j = blockBBox p2 w i j).
  { unfold blockBBox. apply for_loop_ext. intros m bb. unfold scanPixel.
    cbv zeta. now rewrite H0, !Hagree by lia. }
  assert (Hpix : forall s o, (exists q, o = 4 * q) ->
                             pixelIndex p1 s o = pixelIndex p2 s o).
  { intros s o [q ->]. unfold pixelIndex. f_equal. apply for_loop_ext.
    intros n acc. unfold pickStep, dist. cbv zeta.
    now rewrite H0, !Hagree by lia. }
  assert (Hloop : forall s,
             JS.for_loop 16 0 16 1 (assignPixel p1 w i j) s
             = JS.for_loop 16 0 16 1 (assignPixel p2 w i j) s).
  { intros s. apply for_loop_ext. intros k s'. unfold assignPixel. cbv zeta.
    rewrite Hpix; [reflexivity |].
    destruct (shl2_multiple ((i + JS.shr k 2) * w + j + JS.and k 3))
      as [q Hq].
    now exists q. }
  unfold compressBlock. rewrite Hbb.
  destruct (blockEndpoints (blockBBox p2 w i j)) as [maxC minC].
  destruct (maxC =? minC); [reflexivity |].
  destruct (orderEndpoints (maxC, minC)) as [hi lo].
  rewrite Hloop. reflexivity.
Qed.

Lemma grid_ext p1 p2 w h st :
  (forall i j s, compressBlock p1 w i j s = compressBlock p2 w i j s) ->
  JS.for_loop (Z.to_nat h) 0 h 4
    (fun i st =>
       JS.for_loop (Z.to_nat w) 0 w 4
         (fun j st => compressBlock p1 w i j st) st) st
  = JS.for_loop (Z.to_nat h) 0 h 4
      (fun i st =>
         JS.for_loop (Z.to_nat w) 0 w 4
           (fun j st => compressBlock p2 w i j st) st) st.
Proof.
  intros Hblock. apply for_loop_ext. intros i s.
  apply for_loop_ext. intros j s'. apply Hblock.
Qed.

Lemma compress_ext img1 img2 :
  width img1 = width img2 -> height img1 = height img2 ->
  (forall q c, 0 <= c < 3 ->
     JS.get (data img1) (4 * q + c) = JS.get (data img2) (4 * q + c)) ->
  compress img1 = compress img2.
Proof.
  intros Hw Hh Hagree. rewrite !compress_unfold, Hw, Hh.
  destruct (negb _); [reflexivity |].
  destruct (JS.newUint32Array _) as [buf |]; [| reflexivity].
  rewrite (grid_ext (data img1) (data img2)); [reflexivity |].
  intros i j s. now apply compressBlock_ext.
Qed.

Lemma stripAlpha_lookup pixels : forall q c,
  (c < 3)%nat ->
  stripAlpha pixels !! (3 * q + c)%nat = pixels !! (4 * q + c)%nat.
Proof.
  intros q. revert pixels. induction q as [| q IH]; intros pixels c Hc.
  - destruct pixels as [| r [| g [| b [| a rest]]]]; try reflexivity.
    cbn [stripAlpha]. cbn [Nat.mul Nat.add].
    destruct c as [| [| [| c]]]; try reflexivity; lia.
  - destruct pixels as [| r [| g [| b [| a rest]]]].
    + reflexivity.
    + cbn [stripAlpha]. rewrite !lookup_ge_None_2 by (cbn; lia). reflexivity.
    + cbn [stripAlpha]. rewrite !lookup_ge_None_2 by (cbn; lia). reflexivity.
    + cbn [stripAlpha]. rewrite !lookup_ge_None_2 by (cbn; lia). reflexivity.
    + cbn [stripAlpha].
      replace (3 * S q + c)%nat with (S (S (S (3 * q + c)))) by lia.
      replace (4 * S q + c)%nat with (S (S (S (S (4 * q + c))))) by lia.
      cbn [lookup list_lookup]. now apply IH.
Qed.

Lemma stripAlpha_get p1 p2 :
  stripAlpha p1 = stripAlpha p2 ->
  forall q c, 0 <= c < 3 -> JS.get p1 (4 * q + c) = JS.get p2 (4 * q + c).
Proof.
  intros Heq q c Hc. unfold JS.get.
  destruct (Z.ltb_spec (4 * q + c) 0) as [Hneg | Hpos]; [reflexivity |].
  replace (Z.to_nat (4 * q + c)) with (4 * Z.to_nat q + Z.to_nat c)%nat by lia.
  rewrite <- !stripAlpha_lookup by lia. now rewrite Heq.
Qed.

(** C9. Two images of the same dimensions whose buffers agree on every
    red, green and blue byte compress to the same result, whatever their
    alpha bytes are. *)
Theorem alpha_ignored img1 img2 :
  width img1 = width img2 -> height img1 = height img2 ->
  stripAlpha (data img1) = stripAlpha (data img2) ->
  compress img1 = compress img2.
Proof.
  intros Hw Hh Hrgb. apply compress_ext; [assumption | assumption |].
  now apply stripAlpha_get.
Qed.

Lemma alpha_ignored_witness :
  (width twoToneImage = width (solidAlpha twoToneImage 17) /\
   height twoToneImage = height (solidAlpha twoToneImage 17) /\
   stripAlpha (data twoToneImage)
   = stripAlpha (data (solidAlpha twoToneImage 17))) /\
  data twoToneImage <> data (solidAlpha twoToneImage 17) /\
  compress twoToneImage = compress (solidAlpha twoToneImage 17).
Proof.
  assert (H1 : width twoToneImage = width (solidAlpha twoToneImage 17))
    by reflexivity.
  assert (H2 : height twoToneImage = height (solidAlpha twoToneImage 17))
    by reflexivity.
  assert (H3 : stripAlpha (data twoToneImage)
               = stripAlpha (data (solidAlpha twoToneImage 17)))
    by (vm_compute; reflexivity).
  split; [tauto |]. split; [vm_compute; discriminate |].
  exact (alpha_ignored twoToneImage (solidAlpha twoToneImage 17) H1 H2 H3).
Defined.

End Alpha.

(* ===================================================================== *)
(** * Blocks of a well-formed image *)

Section ValidBlocks.

Lemma scan_offset i j w m :
  0 <= m < 16 ->
  4 * ((i + JS.shr m 2) * w + j + JS.and m 3)
  = 4 * ((i + m / 4) * w + (j + m mod 4)).
Proof.
  intros Hm. rewrite shr_small by lia. rewrite land3_mod4.
  change (2 ^ 2) with 4. lia.
Qed.

(** Inside a well-formed image every byte of a block is there. *)
Lemma block_read img i j m c :
  validImage img -> blockOf img i j -> 0 <= m < 16 -> 0 <= c < 4 ->
  exists x,
    JS.get (data img) (4 * ((i + m / 4) * width img + (j + m mod 4)) + c)
    = Some x.
Proof.
  intros (Hw & Hh & Hlen & _) (Hi & Hi' & Hj & Hj') Hm Hc.
  pose proof (div_bounds m 4 4 eq_refl ltac:(lia)) as Ha.
  pose proof (Z.mod_pos_bound m 4 eq_refl) as Hb.
  set (a := m / 4) in *. set (b := m mod 4) in *.
  assert (Hrow : 0 <= (i + a) * width img + (j + b)
                 < width img * height img) by nia.
  rewrite get_lookup by lia.
  apply lookup_lt_is_Some_2. lia.
Qed.

Lemma blockBBox_ordered img i j :
  validImage img -> blockOf img i j ->
  let bb := blockBBox (data img) (width img) i j in
  ordered (maxR bb) (minR bb) /\ ordered (maxG bb) (minG bb) /\
  ordered (maxB bb) (minB bb).
Proof.
  intros Hv Hblk. cbv zeta. unfold blockBBox.
  assert (Hb : bytes_ok (data img) = true) by apply Hv.
  destruct (for_loop_inv
              (fun m bb => 0 <= m /\ bbox_ok bb /\
                           (1 <= m -> ordered (maxR bb) (minR bb) /\
                                      ordered (maxG bb) (minG bb) /\
                                      ordered (maxB bb) (minB bb)))
              (scanPixel (data img) (width img) i j) 16 1 eq_refl)
    with (fuel := 16%nat) (i := 0)
         (s := {| maxR := 0; maxG := 0; maxB := 0;
                  minR := 0xff; minG := 0xff; minB := 0xff |})
    as (m & Hm & _ & _ & H); [| lia | | apply H; lia].
  - intros m bb Hm (Hm0 & (HR & HG & HB) & _).
    split; [lia |]. unfold scanPixel. rewrite scan_offset by lia. cbn.
    destruct (block_read img i j m 0 Hv Hblk ltac:(lia) ltac:(lia)) as [r Er].
    destruct (block_read img i j m 1 Hv Hblk ltac:(lia) ltac:(lia)) as [g Eg].
    destruct (block_read img i j m 2 Hv Hblk ltac:(lia) ltac:(lia)) as [b Eb].
    rewrite Z.add_0_r in Er.
    split.
    + repeat split; now apply raise_lower_ok.
    + intros _. unfold ordered.
      split; [| split]; eapply raise_lower_some; eassumption.
  - split; [lia |]. split; [| intros; lia].
    unfold bbox_ok, channel_ok. cbn. tauto.
Qed.

(** C10. In every block of a well-formed image the bounds of each channel
    are bytes with [min <= max]; the guard of the max endpoint always
    passes, the guard of the min endpoint fails only when [min + inset] is
    255, and the two guarded values are [max - inset] and [min + inset]. *)
Theorem inset_guards_idle img i j :
  validImage img -> blockOf img i j ->
  let bb := blockBBox (data img) (width img) i j in
  (ordered (maxR bb) (minR bb) /\ guards_idle (maxR bb) (minR bb)) /\
  (ordered (maxG bb) (minG bb) /\ guards_idle (maxG bb) (minG bb)) /\
  (ordered (maxB bb) (minB bb) /\ guards_idle (maxB bb) (minB bb)).
Proof.
  intros Hv Hblk bb.
  destruct (blockBBox_ordered img i j Hv Hblk) as (HR & HG & HB).
  fold bb in HR, HG, HB.
  repeat split; try (apply HR || apply HG || apply HB);
    apply channel_guards; right; assumption.
Qed.

Lemma inset_guards_idle_witness :
  (validImage twoToneImage /\ blockOf twoToneImage 0 0) /\
  let bb := blockBBox (data twoToneImage) (width twoToneImage) 0 0 in
  (ordered (maxR bb) (minR bb) /\ guards_idle (maxR bb) (minR bb)) /\
  (ordered (maxG bb) (minG bb) /\ guards_idle (maxG bb) (minG bb)) /\
  (ordered (maxB bb) (minB bb) /\ guards_idle (maxB bb) (minB bb)).
Proof.
  assert (H1 : validImage twoToneImage)
    by (unfold validImage; cbn; repeat split; lia).
  assert (H2 : blockOf twoToneImage 0 0) by (unfold blockOf; cbn; lia).
  split; [tauto |]. exact (inset_guards_idle twoToneImage 0 0 H1 H2).
Defined.

End ValidBlocks.

(* ===================================================================== *)
(** * The endpoint word *)

Section Endpoints.

Lemma endpoint_word lo hi :
  rgb565 lo -> rgb565 hi ->
  JS.toUint32 (JS.or (JS.shl lo 16) hi) = lo * 65536 + hi /\
  Z.lor (Z.shiftl lo 16) hi = lo * 65536 + hi.
Proof.
  unfold rgb565. intros Hlo Hhi.
  assert (Hlor : Z.lor (lo * 2 ^ 16) hi = lo * 65536 + hi).
  { rewrite lor_fields by (change (2 ^ 16) with 65536; lia).
    change (2 ^ 16) with 65536. reflexivity. }
  split.
  - rewrite toUint32_or. unfold JS.shl.
    change (Z.land (JS.toUint32 16) 31) with 16.
    rewrite toUint32_toInt32.
    rewrite (toInt32_small lo) by (change (2 ^ 31) with 2147483648; lia).
    rewrite Z.shiftl_mul_pow2 by lia.
    rewrite !toUint32_small
      by (change (2 ^ 32) with 4294967296; change (2 ^ 16) with 65536; lia).
    exact Hlor.
  - rewrite Z.shiftl_mul_pow2 by lia. exact Hlor.
Qed.

Lemma endpoint_fields lo hi :
  rgb565 lo -> rgb565 hi ->
  field (lo * 65536 + hi) 15 0 = hi /\ field (lo * 65536 + hi) 31 16 = lo.
Proof.
  unfold rgb565. intros Hlo Hhi. rewrite !field_div by lia.
  change (2 ^ 0) with 1. change (2 ^ 16) with 65536.
  change (2 ^ (15 - 0 + 1)) with 65536. change (2 ^ (31 - 16 + 1)) with 65536.
  split; Z.div_mod_to_equations; lia.
Qed.

Lemma clamp_bytes max min :
  channel_ok max min ->
  byte (clampLow max (insetOf max min)) /\
  byte (clampHigh min (insetOf max min)).
Proof.
  intros Hc. destruct (channel_guards max min Hc) as (_ & _ & _ & _ & -> & ->).
  unfold byte.
  rewrite insetOf_div by (destruct Hc as [[H1 H2] | Hc]; lia).
  destruct Hc as [[H1 H2] | Hc].
  - rewrite H1, H2. vm_compute. repeat split; discriminate.
  - pose proof (div_bounds (max - min) 16 16 eq_refl ltac:(lia)).
    Z.div_mod_to_equations. lia.
Qed.

Lemma blockEndpoints_range bb :
  bbox_ok bb ->
  rgb565 (fst (blockEndpoints bb)) /\ rgb565 (snd (blockEndpoints bb)).
Proof.
  intros (HR & HG & HB). unfold blockEndpoints. cbn [fst snd].
  destruct (clamp_bytes _ _ HR), (clamp_bytes _ _ HG), (clamp_bytes _ _ HB).
  split; apply toRGB565_range; assumption.
Qed.

Lemma orderEndpoints_spec a b :
  let e := orderEndpoints (a, b) in
  snd e <= fst e /\ (a <> b -> snd e < fst e) /\
  ((fst e = a /\ snd e = b) \/ (fst e = b /\ snd e = a)).
Proof.
  cbv zeta. unfold orderEndpoints.
  destruct (Z.ltb_spec a b); cbn [fst snd]; lia.
Qed.

(** The endpoint word of any block holds the ordered pair of endpoints. *)
Lemma blockCode_endpoints pixels w i j :
  bytes_ok pixels = true ->
  let e := orderEndpoints (blockEndpoints (blockBBox pixels w i j)) in
  rgb565 (fst e) /\ rgb565 (snd e) /\
  fst (blockCode pixels w i j) = snd e * 65536 + fst e.
Proof.
  intros Hb. cbv zeta.
  destruct (blockEndpoints_range _ (blockBBox_ok pixels w i j Hb))
    as [Hmax Hmin].
  unfold blockCode.
  destruct (blockEndpoints (blockBBox pixels w i j)) as [maxC minC].
  cbn [fst snd] in Hmax, Hmin.
  destruct (orderEndpoints_spec maxC minC) as (_ & _ & Hcase).
  destruct (Z.eqb_spec maxC minC) as [-> | Hne].
  - unfold orderEndpoints. rewrite Z.ltb_irrefl. cbn [fst snd].
    split; [exact Hmin |]. split; [exact Hmin |].
    apply endpoint_word; assumption.
  - destruct (orderEndpoints (maxC, minC)) as [hi lo]. cbn [fst snd] in *.
    assert (rgb565 hi /\ rgb565 lo) as [Hhi Hlo]
      by (destruct Hcase as [[-> ->] | [-> ->]]; tauto).
    split; [exact Hhi |]. split; [exact Hlo |].
    apply endpoint_word; assumption.
Qed.

Lemma word_of_block img out bi bj :
  0 <= width img -> 0 <= height img ->
  compress img = JS.Returned (Some out) ->
  0 <= bi < height img / 4 -> 0 <= bj < width img / 4 ->
  (forall e, out !! Z.to_nat (2 * (bi * (width img / 4) + bj)) = Some e ->
             e = fst (blockCode (data img) (width img) (4 * bi) (4 * bj))) /\
  (forall iw, out !! Z.to_nat (2 * (bi * (width img / 4) + bj) + 1) = Some iw ->
              iw = snd (blockCode (data img) (width img) (4 * bi) (4 * bj))).
Proof.
  intros Hw Hh Hout Hbi Hbj.
  destruct (compress_blocks img out Hw Hh Hout) as (_ & _ & _ & Hwords).
  destruct (Hwords bi bj Hbi Hbj) as [H0 H1]. unfold wordAt in *.
  split; intros x Hx; pose proof (lookup_lt_Some _ _ _ Hx) as Hlt.
  - rewrite (H0 Hlt) in Hx. congruence.
  - rewrite (H1 Hlt) in Hx. congruence.
Qed.

(** C6. In the result of [compress] on a well-formed image, the endpoint
    word [e] of every block is [(min << 16) | max] for the ordered pair of
    endpoints: its low half is the max endpoint, its high half the min
    endpoint, the low half is at least the high half, and strictly greater
    when the block is not degenerate. *)
Theorem endpoint_order img out bi bj e :
  validImage img ->
  compress img = JS.Returned (Some out) ->
  0 <= bi < height img / 4 -> 0 <= bj < width img / 4 ->
  out !! Z.to_nat (2 * (bi * (width img / 4) + bj)) = Some e ->
  let ends := blockEndpoints (blockBBox (data img) (width img) (4 * bi) (4 * bj)) in
  let maxColor565 := fst (orderEndpoints ends) in
  let minColor565 := snd (orderEndpoints ends) in
  e = Z.lor (Z.shiftl minColor565 16) maxColor565 /\
  field e 15 0 = maxColor565 /\ field e 31 16 = minColor565 /\
  field e 31 16 <= field e 15 0 /\
  (fst ends <> snd ends -> field e 31 16 < field e 15 0).
Proof.
  intros (Hw & Hh & _ & Hb) Hout Hbi Hbj He. cbv zeta.
  destruct (word_of_block img out bi bj Hw Hh Hout Hbi Hbj) as [H0 _].
  specialize (H0 e He).
  destruct (blockCode_endpoints (data img) (width img) (4 * bi) (4 * bj) Hb)
    as (Hhi & Hlo & Hcode).
  rewrite Hcode in H0. clear Hcode.
  destruct (blockEndpoints _) as [maxC minC].
  destruct (orderEndpoints_spec maxC minC) as (Hle & Hlt & _).
  destruct (orderEndpoints (maxC, minC)) as [hi lo]. cbn [fst snd] in *.
  destruct (endpoint_fields lo hi Hlo Hhi) as [Ef0 Ef1].
  destruct (endpoint_word lo hi Hlo Hhi) as [_ Elor].
  subst e. rewrite Ef0, Ef1, Elor. repeat split; (lia || exact Hlt).
Qed.

Lemma endpoint_order_witness :
  (validImage twoToneImage /\
   compress twoToneImage = JS.Returned (Some [140638110; 0x5555]) /\
   0 <= 0 < height twoToneImage / 4 /\ 0 <= 0 < width twoToneImage / 4 /\
   [140638110; 0x5555] !! Z.to_nat (2 * (0 * (width twoToneImage / 4) + 0))
   = Some 140638110) /\
  let ends := blockEndpoints (blockBBox (data twoToneImage)
                                (width twoToneImage) (4 * 0) (4 * 0)) in
  let maxColor565 := fst (orderEndpoints ends) in
  let minColor565 := snd (orderEndpoints ends) in
  140638110 = Z.lor (Z.shiftl minColor565 16) maxColor565 /\
  field 140638110 15 0 = maxColor565 /\
  field 140638110 31 16 = minColor565 /\
  field 140638110 31 16 <= field 140638110 15 0 /\
  (fst ends <> snd ends -> field 140638110 31 16 < field 140638110 15 0).
Proof.
  assert (H1 : validImage twoToneImage)
    by (unfold validImage; cbn; repeat split; lia).
  assert (H2 : compress twoToneImage = JS.Returned (Some [140638110; 0x5555]))
    by (vm_compute; reflexivity).
  assert (H3 : 0 <= 0 < height twoToneImage / 4) by (vm_compute; split; [discriminate | reflexivity]).
  assert (H4 : 0 <= 0 < width twoToneImage / 4) by (vm_compute; split; [discriminate | reflexivity]).
  assert (H5 : [140638110; 0x5555]
                 !! Z.to_nat (2 * (0 * (width twoToneImage / 4) + 0))
               = Some 140638110) by reflexivity.
  split; [tauto |].
  exact (endpoint_order twoToneImage [140638110; 0x5555] 0 0 140638110
           H1 H2 H3 H4 H5).
Defined.

End Endpoints.

(* ===================================================================== *)
(** * Single-colour blocks *)

Section Solid.

Lemma solidBlock_reads img i j r g b :
  solidBlock img i j r g b = true ->
  forall m, 0 <= m < 16 ->
    let o := 4 * ((i + m / 4) * width img + (j + m mod 4)) in
    JS.get (data img) o = Some r /\ JS.get (data img) (o + 1) = Some g /\
    JS.get (data img) (o + 2) = Some b.
Proof.
  unfold solidBlock. intros Hall m Hm.
  pose proof (forall_below _ 16 Hall m ltac:(lia)) as Hpx.
  cbv beta in Hpx. unfold pixelIs, pixelAt in Hpx. cbv zeta in *.
  destruct (JS.get (data img) _) as [r' |]; [| discriminate].
  destruct (JS.get (data img) (_ + 1)) as [g' |]; [| discriminate].
  destruct (JS.get (data img) (_ + 2)) as [b' |]; [| discriminate].
  apply andb_prop in Hpx as [Hpx Hb']. apply andb_prop in Hpx as [Hr' Hg'].
  apply Z.eqb_eq in Hr', Hg', Hb'. now subst.
Qed.

Lemma solid_bbox img i j r g b :
  byte r -> byte g -> byte b ->
  solidBlock img i j r g b = true ->
  blockBBox (data img) (width img) i j
  = {| maxR := r; maxG := g; maxB := b; minR := r; minG := g; minB := b |}.
Proof.
  unfold byte. intros Hr Hg Hb Hsolid.
  pose proof (solidBlock_reads img i j r g b Hsolid) as Hreads.
  set (init := {| maxR := 0; maxG := 0; maxB := 0;
                  minR := 0xff; minG := 0xff; minB := 0xff |}).
  set (full := {| maxR := r; maxG := g; maxB := b;
                  minR := r; minG := g; minB := b |}).
  unfold blockBBox. fold init.
  destruct (for_loop_inv
              (fun m bb => 0 <= m /\ (bb = init \/ bb = full) /\
                           (1 <= m -> bb = full))
              (scanPixel (data img) (width img) i j) 16 1 eq_refl)
    with (fuel := 16%nat) (i := 0) (s := init)
    as (m & Hm & _ & _ & H); [| lia | | apply H; lia].
  - intros m bb Hm (Hm0 & Hbb & _).
    destruct (Hreads m ltac:(lia)) as (Er & Eg & Eb). cbv zeta in *.
    assert (Hstep : scanPixel (data img) (width img) i j m bb = full).
    { unfold scanPixel. rewrite scan_offset by lia. cbv zeta.
      rewrite Er, Eg, Eb. unfold raise, lower, JS.lt, JS.gt, full.
      destruct Hbb as [-> | ->]; cbn [maxR maxG maxB minR minG minB init full];
        f_equal;
        repeat match goal with
               | |- context [?a <? ?b] => destruct (Z.ltb_spec a b)
               | |- context [?a >? ?b] => destruct (Z.gtb_spec a b)
               end; lia. }
    rewrite Hstep. split; [lia |]. split; [now right | reflexivity].
  - split; [lia |]. split; [now left | lia].
Qed.

Lemma solid_code img i j r g b :
  byte r -> byte g -> byte b ->
  solidBlock img i j r g b = true ->
  blockCode (data img) (width img) i j
  = (toRGB565 r g b * 65536 + toRGB565 r g b, 0).
Proof.
  intros Hr Hg Hb Hsolid. unfold blockCode.
  rewrite (solid_bbox img i j r g b Hr Hg Hb Hsolid).
  assert (Hends : blockEndpoints
                    {| maxR := r; maxG := g; maxB := b;
                       minR := r; minG := g; minB := b |}
                  = (toRGB565 r g b, toRGB565 r g b)).
  { unfold blockEndpoints. cbn [maxR maxG maxB minR minG minB].
    unfold insetOf. rewrite !Z.sub_diag.
    change (JS.shr 0 INSET_SHIFT) with 0.
    unfold clampLow, clampHigh, byte in *. rewrite !Z.sub_0_r, !Z.add_0_r.
    repeat match goal with
           | |- context [?a >=? ?b] => destruct (Z.geb_spec a b); [| lia]
           end.
    repeat match goal with
           | |- context [?a <? 255] =>
               destruct (Z.ltb_spec a 255);
               [| replace a with 255 by lia; change (255 + 0) with 255]
           end; reflexivity. }
  rewrite Hends, Z.eqb_refl.
  pose proof (toRGB565_range r g b Hr Hg Hb) as Hc.
  destruct (endpoint_word _ _ Hc Hc) as [-> _]. reflexivity.
Qed.

(** C4. In the result of [compress] on a well-formed image, a block whose
    sixteen pixels all have the colour [(r, g, b)] has the endpoint word
    [(c << 16) | c] with [c = toRGB565 r g b], and the index word 0. *)
Theorem solid_block img out bi bj r g b e iw :
  validImage img ->
  compress img = JS.Returned (Some out) ->
  0 <= bi < height img / 4 -> 0 <= bj < width img / 4 ->
  solidBlock img (4 * bi) (4 * bj) r g b = true ->
  out !! Z.to_nat (2 * (bi * (width img / 4) + bj)) = Some e ->
  out !! Z.to_nat (2 * (bi * (width img / 4) + bj) + 1) = Some iw ->
  e = Z.lor (Z.shiftl (toRGB565 r g b) 16) (toRGB565 r g b) /\ iw = 0.
Proof.
  intros (Hw & Hh & _ & Hbytes) Hout Hbi Hbj Hsolid He Hiw.
  destruct (solidBlock_reads img _ _ r g b Hsolid 0 ltac:(lia))
    as (Er & Eg & Eb).
  cbv zeta in *.
  assert (Hr : byte r) by (eapply bytes_ok_get; eassumption).
  assert (Hg : byte g) by (eapply bytes_ok_get; eassumption).
  assert (Hb : byte b) by (eapply bytes_ok_get; eassumption).
  destruct (word_of_block img out bi bj Hw Hh Hout Hbi Hbj) as [H0 H1].
  specialize (H0 e He). specialize (H1 iw Hiw).
  pose proof (solid_code img _ _ r g b Hr Hg Hb Hsolid) as Hcode.
  pose proof (toRGB565_range r g b Hr Hg Hb) as Hc.
  destruct (endpoint_word _ _ Hc Hc) as [_ Hlor].
  revert Hcode Hlor. generalize (toRGB565 r g b). intros c Hcode Hlor.
  rewrite Hcode in H0, H1. rewrite Hlor. split; assumption.
Qed.

Lemma solid_block_witness :
  (validImage (solidImage 10 20 30) /\
   compress (solidImage 10 20 30) = JS.Returned (Some [144902307; 0]) /\
   0 <= 0 < height (solidImage 10 20 30) / 4 /\
   0 <= 0 < width (solidImage 10 20 30) / 4 /\
   solidBlock (solidImage 10 20 30) (4 * 0) (4 * 0) 10 20 30 = true /\
   [144902307; 0]
     !! Z.to_nat (2 * (0 * (width (solidImage 10 20 30) / 4) + 0))
   = Some 144902307 /\
   [144902307; 0]
     !! Z.to_nat (2 * (0 * (width (solidImage 10 20 30) / 4) + 0) + 1)
   = Some 0) /\
  144902307 = Z.lor (Z.shiftl (toRGB565 10 20 30) 16) (toRGB565 10 20 30) /\
  0 = 0.
Proof.
  assert (H1 : validImage (solidImage 10 20 30))
    by (unfold validImage; cbn; repeat split; lia).
  assert (H2 : compress (solidImage 10 20 30)
               = JS.Returned (Some [144902307; 0]))
    by (vm_compute; reflexivity).
  assert (H3 : 0 <= 0 < height (solidImage 10 20 30) / 4)
    by (vm_compute; split; [discriminate | reflexivity]).
  assert (H4 : 0 <= 0 < width (solidImage 10 20 30) / 4)
    by (vm_compute; split; [discriminate | reflexivity]).
  assert (H5 : solidBlock (solidImage 10 20 30) (4 * 0) (4 * 0) 10 20 30
               = true) by (vm_compute; reflexivity).
  assert (H6 : [144902307; 0]
                 !! Z.to_nat (2 * (0 * (width (solidImage 10 20 30) / 4) + 0))
               = Some 144902307) by reflexivity.
  assert (H7 : [144902307; 0]
                 !! Z.to_nat (2 * (0 * (width (solidImage 10 20 30) / 4) + 0) + 1)
               = Some 0) by reflexivity.
  split; [tauto |].
  exact (solid_block (solidImage 10 20 30) [144902307; 0] 0 0 10 20 30
           144902307 0 H1 H2 H3 H4 H5 H6 H7).
Defined.

End Solid.

(* ===================================================================== *)
(** * The transparent image *)

Section Transparent.

Lemma TRANSPARENT_BLOCK_ones : TRANSPARENT_BLOCK = replicate 1024 0xffffffff.
Proof. vm_compute. reflexivity. Qed.

(** Copying the fill pattern at [1024 * q] into a buffer that is filled up
    to there. *)
Lemma fill_chunk (q c : nat) :
  list_inserts (1024 * q) (replicate 1024 0xffffffff)
    (replicate (1024 * q) 0xffffffff ++ replicate (1024 + c) 0)
  = replicate (1024 * q + 1024) 0xffffffff ++ replicate c 0.
Proof.
  rewrite (replicate_add 1024 c), (replicate_add (1024 * q) 1024).
  rewrite <- (Nat.add_0_r (1024 * q)) at 1.
  rewrite <- (length_replicate (1024 * q) 0xffffffff) at 1.
  rewrite list_inserts_app_r.
  rewrite list_inserts_0_r by now rewrite !length_replicate.
  now rewrite <- app_assoc.
Qed.

(** The fill loop from chunk [q] on: it ends well exactly when the length
    is a whole number of chunks, and throws at the first chunk that does
    not fit otherwise. *)
Lemma fill_loop (n : nat) : forall (fuel q : nat),
  (1024 * q <= n)%nat -> (n - 1024 * q <= fuel)%nat ->
  JS.for_loopE fuel (Z.of_nat (1024 * q)) (Z.of_nat n) TRANSPARENT_BLOCK_SIZE
    (fun offset data => JS.typedSet data TRANSPARENT_BLOCK offset)
    (replicate (1024 * q) 0xffffffff ++ replicate (n - 1024 * q) 0)
  = if Z.of_nat n mod 1024 =? 0
    then JS.Returned (replicate n 0xffffffff)
    else JS.RangeError.
Proof.
  induction fuel as [| fuel IH]; intros q Hq Hfuel.
  - assert (E : n = (1024 * q)%nat) by lia. subst n.
    cbn [JS.for_loopE]. rewrite Nat.sub_diag.
    cbn [replicate]. rewrite app_nil_r.
    replace (Z.of_nat (1024 * q) mod 1024) with 0
      by (Z.div_mod_to_equations; lia).
    reflexivity.
  - cbn [JS.for_loopE].
    destruct (Z.ltb_spec (Z.of_nat (1024 * q)) (Z.of_nat n)) as [Hlt | Hge].
    + unfold JS.typedSet. rewrite TRANSPARENT_BLOCK_ones.
      rewrite length_app, !length_replicate.
      destruct (Z.ltb_spec (Z.of_nat (1024 * q + (n - 1024 * q)))
                  (Z.of_nat 1024 + Z.of_nat (1024 * q))) as [Hshort | Hfits].
      * destruct (Z.eqb_spec (Z.of_nat n mod 1024) 0) as [Hm | Hm];
          [| reflexivity].
        exfalso. Z.div_mod_to_equations. lia.
      * rewrite Nat2Z.id.
        replace (n - 1024 * q)%nat with (1024 + (n - 1024 * (q + 1)))%nat by lia.
        rewrite fill_chunk.
        replace (1024 * q + 1024)%nat with (1024 * (q + 1))%nat by lia.
        replace (Z.of_nat (1024 * q) + TRANSPARENT_BLOCK_SIZE)
          with (Z.of_nat (1024 * (q + 1)))
          by (unfold TRANSPARENT_BLOCK_SIZE; lia).
        apply IH; lia.
    + assert (E : n = (1024 * q)%nat) by lia. clear IH. subst n.
      rewrite Nat.sub_diag. cbn [replicate]. rewrite app_nil_r.
      replace (Z.of_nat (1024 * q) mod 1024) with 0
        by (Z.div_mod_to_equations; lia).
      reflexivity.
Qed.

(** What [getTransparentImage] does for dimensions whose product is below
    2^31: a buffer of all-ones words when [W * H / 8] is a multiple of 1024,
    and a RangeError from [data.set] otherwise. *)
Lemma getTransparentImage_outcome width height :
  0 <= width * height < 2 ^ 31 ->
  getTransparentImage width height
  = if (width * height / 8) mod 1024 =? 0
    then JS.Returned (replicate (Z.to_nat (width * height / 8)) 0xffffffff)
    else JS.RangeError.
Proof.
  intros Hsize. unfold getTransparentImage. cbv zeta.
  rewrite shr_small by lia. change (2 ^ 3) with 8.
  pose proof (Z.div_pos (width * height) 8 ltac:(lia) eq_refl) as Hn.
  set (n := width * height / 8) in *.
  unfold JS.newUint32Array.
  destruct (Z.ltb_spec n 0); [lia |].
  pose proof (fill_loop (Z.to_nat n) (Z.to_nat n) 0 ltac:(lia) ltac:(lia))
    as Hloop.
  replace (1024 * 0)%nat with 0%nat in Hloop by lia.
  rewrite Nat.sub_0_r, Z2Nat.id in Hloop by lia.
  exact Hloop.
Qed.

(** C1 fails on the smallest image: [getTransparentImage 4 4] allocates two
    words and then throws when the 1024-word fill pattern is copied into
    them. *)
Theorem transparent_4_by_4_throws :
  4 mod 4 = 0 /\ getTransparentImage 4 4 = JS.RangeError /\
  JS.typedSet [0; 0] TRANSPARENT_BLOCK 0 = JS.RangeError.
Proof. vm_compute. repeat split. Qed.

(** A size on which it works: 128 by 128 gives 2048 words of all ones. *)
Example transparent_128_by_128 :
  getTransparentImage 128 128 = JS.Returned (replicate 2048 0xffffffff).
Proof. vm_compute. reflexivity. Qed.

End Transparent.

(* ===================================================================== *)
(** * The index word *)

Section Indices.

Variable idx : Z -> Z.
Hypothesis idx_range : forall k, 0 <= idx k < 4.

Lemma pow4_succ n :
  2 ^ (2 * Z.of_nat (S n)) = 4 * 2 ^ (2 * Z.of_nat n).
Proof.
  replace (2 * Z.of_nat (S n)) with (2 + 2 * Z.of_nat n) by lia.
  rewrite Z.pow_add_r by lia. reflexivity.
Qed.

Lemma packIndices_succ n :
  0 <= packIndices idx n < 2 ^ (2 * Z.of_nat n) ->
  packIndices idx (S n)
  = idx (Z.of_nat n) * 2 ^ (2 * Z.of_nat n) + packIndices idx n.
Proof.
  intros Hr.
  change (packIndices idx (S n))
    with (Z.lor (packIndices idx n)
                (Z.shiftl (idx (Z.of_nat n)) (2 * Z.of_nat n))).
  rewrite Z.shiftl_mul_pow2 by lia. rewrite Z.lor_comm.
  apply lor_fields; [lia | exact Hr].
Qed.

Lemma packIndices_step n :
  0 <= packIndices idx n < 2 ^ (2 * Z.of_nat n) /\
  packIndices idx (S n)
  = idx (Z.of_nat n) * 2 ^ (2 * Z.of_nat n) + packIndices idx n.
Proof.
  induction n as [| n [IHr IHs]].
  - assert (Hr : 0 <= packIndices idx 0 < 2 ^ (2 * Z.of_nat 0))
      by (cbn; lia).
    split; [exact Hr | now apply packIndices_succ].
  - assert (Hr : 0 <= packIndices idx (S n) < 2 ^ (2 * Z.of_nat (S n))).
    { rewrite IHs, pow4_succ. pose proof (idx_range (Z.of_nat n)). nia. }
    split; [exact Hr | now apply packIndices_succ].
Qed.

(** Pixel [k] sits in bits [2k + 1 .. 2k] of the packed word. *)
Lemma pack_field n k :
  (k < n)%nat ->
  field (packIndices idx n) (2 * Z.of_nat k + 1) (2 * Z.of_nat k)
  = idx (Z.of_nat k).
Proof.
  intros Hk. rewrite field_div by lia.
  replace (2 * Z.of_nat k + 1 - 2 * Z.of_nat k + 1) with 2 by lia.
  change (2 ^ 2) with 4.
  induction n as [| n IH]; [lia |].
  destruct (packIndices_step n) as [Hr ->].
  assert (Hpos : 0 < 2 ^ (2 * Z.of_nat k)) by (apply Z.pow_pos_nonneg; lia).
  destruct (Nat.eq_dec k n) as [-> | Hne].
  - rewrite Z.div_add_l by lia. rewrite (Z.div_small (packIndices idx n)) by lia.
    rewrite Z.add_0_r. apply Z.mod_small. apply idx_range.
  - replace (2 * Z.of_nat n)
      with (2 + 2 * Z.of_nat (n - k - 1) + 2 * Z.of_nat k) by lia.
    rewrite !Z.pow_add_r by lia. change (2 ^ 2) with 4.
    rewrite !Z.mul_assoc. rewrite Z.div_add_l by lia.
    rewrite Z.add_comm.
    replace (idx (Z.of_nat n) * 4 * 2 ^ (2 * Z.of_nat (n - k - 1)))
      with (idx (Z.of_nat n) * 2 ^ (2 * Z.of_nat (n - k - 1)) * 4) by lia.
    rewrite Z_mod_plus_full. apply IH. lia.
Qed.

Lemma shl_index d k :
  0 <= d < 4 -> 0 <= k < 16 ->
  JS.toUint32 (JS.shl d (JS.shl k 1)) = Z.shiftl d (2 * k).
Proof.
  intros Hd Hk.
  rewrite (shl_small k 1)
    by (change (2 ^ 1) with 2; change (2 ^ 31) with 2147483648; lia).
  change (2 ^ 1) with 2. unfold JS.shl.
  rewrite toUint32_toInt32.
  rewrite toInt32_small by (change (2 ^ 31) with 2147483648; lia).
  rewrite shift_amount by lia.
  replace (k * 2) with (2 * k) by lia.
  apply toUint32_small. rewrite Z.shiftl_mul_pow2 by lia.
  assert (0 < 2 ^ (2 * k) <= 2 ^ 30).
  { split; [apply Z.pow_pos_nonneg; lia | apply Z.pow_le_mono_r; lia]. }
  change (2 ^ 30) with 1073741824 in *. change (2 ^ 32) with 4294967296. nia.
Qed.

End Indices.

Section Nearest.

Lemma pixelIndex_range pixels st o : 0 <= pixelIndex pixels st o < 4.
Proof.
  unfold pixelIndex.
  destruct (for_loop_inv (fun n acc => 0 <= n /\ 0 <= snd acc < 4)
              (pickStep pixels st o) 4 1 eq_refl)
    with (fuel := 4%nat) (i := 0) (s := (200000000, 0))
    as (n & _ & _ & H); [| lia | cbn; lia | exact H].
  intros n acc Hn (Hn0 & Hacc). split; [lia |]. unfold pickStep.
  destruct (dist pixels st o n) as [d |]; [| exact Hacc].
  destruct (JS.gt (fst acc) (Some d)); [cbn; lia | exact Hacc].
Qed.

(** The sixteen [|=] build the packed word of the sixteen indices. *)
Lemma indexWord_pack pixels w i j pal :
  indexWord pixels w i j pal
  = packIndices
      (fun k => pixelIndex pixels pal
                  (JS.shl ((i + JS.shr k 2) * w + j + JS.and k 3) 2)) 16.
Proof.
  pose (f := fun k => pixelIndex pixels pal
                        (JS.shl ((i + JS.shr k 2) * w + j + JS.and k 3) 2)).
  assert (Hf : forall k, 0 <= f k < 4) by (intros k; apply pixelIndex_range).
  change (indexWord pixels w i j pal = packIndices f 16).
  unfold indexWord.
  destruct (for_loop_inv
              (fun k acc => exists n : nat, k = Z.of_nat n /\ (n <= 16)%nat /\
                                            acc = packIndices f n)
              (fun k acc =>
                 let offset :=
                   JS.shl ((i + JS.shr k 2) * w + j + JS.and k 3) 2 in
                 JS.toUint32 (JS.or acc (JS.shl (pixelIndex pixels pal offset)
                                                (JS.shl k 1))))
              16 1 eq_refl)
    with (fuel := 16%nat) (i := 0) (s := 0)
    as (k' & Hk' & n & Ek & Hn & Hres).
  - intros k acc Hk (n & -> & Hn & ->). exists (S n).
    split; [lia |]. split; [lia |]. cbv zeta. fold (f (Z.of_nat n)).
    destruct (packIndices_step f Hf n) as [Hr _].
    rewrite toUint32_or, shl_index by (apply Hf || lia).
    rewrite toUint32_small; [reflexivity |].
    assert (2 ^ (2 * Z.of_nat n) <= 2 ^ 32) by (apply Z.pow_le_mono_r; lia).
    lia.
  - lia.
  - exists 0%nat. repeat split; lia.
  - replace n with 16%nat in Hres by lia. exact Hres.
Qed.

(** The running minimum ends on the first nearest entry. *)
Lemma keepNearer_nearest (D : Z -> Z) :
  (forall n, 0 <= n < 4 -> 0 <= D n < 200000000) ->
  let pick := snd (keepNearer D 3 (keepNearer D 2 (keepNearer D 1
                     (keepNearer D 0 (200000000, 0))))) in
  0 <= pick < 4 /\
  (forall n, 0 <= n < 4 -> D pick <= D n) /\
  (forall n, 0 <= n < pick -> D pick < D n).
Proof.
  intros HD. cbv zeta.
  pose proof (HD 0 ltac:(lia)). pose proof (HD 1 ltac:(lia)).
  pose proof (HD 2 ltac:(lia)). pose proof (HD 3 ltac:(lia)).
  unfold keepNearer. cbn [fst snd].
  destruct (Z.gtb_spec 200000000 (D 0)); [| lia]. cbn [fst snd].
  destruct (Z.gtb_spec (D 0) (D 1)); cbn [fst snd];
    match goal with
    | |- context [?a >? D 2] => destruct (Z.gtb_spec a (D 2))
    end; cbn [fst snd];
    match goal with
    | |- context [?a >? D 3] => destruct (Z.gtb_spec a (D 3))
    end; cbn [fst snd];
    (split; [lia |]; split; intros n Hn;
     assert (Hc : n = 0 \/ n = 1 \/ n = 2 \/ n = 3) by lia;
     destruct Hc as [-> | [-> | [-> | ->]]]; lia).
Qed.

Lemma sqDist_bound pr pg pb qr qg qb :
  byte pr -> byte pg -> byte pb -> byte qr -> byte qg -> byte qb ->
  0 <= sqDist (pr, pg, pb) (qr, qg, qb) < 200000000.
Proof.
  unfold byte, sqDist. intros.
  assert (Hsq : forall d, - 255 <= d <= 255 -> 0 <= d * d <= 65025)
    by (intros; nia).
  pose proof (Hsq (pr - qr) ltac:(lia)).
  pose proof (Hsq (pg - qg) ltac:(lia)).
  pose proof (Hsq (pb - qb) ltac:(lia)). lia.
Qed.

Lemma paletteOf_bytes hi lo n :
  rgb565 hi -> rgb565 lo ->
  exists r g b, paletteOf hi lo n = (r, g, b) /\ byte r /\ byte g /\ byte b.
Proof.
  intros Hhi Hlo. unfold paletteOf, expand, mix, byte.
  pose proof (rFromRGB565_range _ Hhi). pose proof (rFromRGB565_range _ Hlo).
  pose proof (gFromRGB565_range _ Hhi). pose proof (gFromRGB565_range _ Hlo).
  pose proof (bFromRGB565_range _ Hhi). pose proof (bFromRGB565_range _ Hlo).
  destruct (n =? 0); [| destruct (n =? 1); [| destruct (n =? 2)]];
    do 3 eexists; (split; [reflexivity |]);
    rewrite ?Z.quot_div_nonneg by lia;
    repeat split; try lia;
    try (apply Z.div_pos; lia);
    try (apply Z.div_lt_upper_bound; lia).
Qed.

(** With the pixel and the palette known, the inner loop picks the first
    nearest entry. *)
Lemma pixelIndex_nearest pixels st o px pal :
  (JS.get pixels o, JS.get pixels (o + 1), JS.get pixels (o + 2)) = known px ->
  (forall n, 0 <= n < 4 -> paletteEntry st n = known (pal n)) ->
  (forall n, 0 <= n < 4 -> 0 <= sqDist px (pal n) < 200000000) ->
  nearest pal px (pixelIndex pixels st o).
Proof.
  intros Hpx Hpal Hbound.
  assert (Hdist : forall n, 0 <= n < 4 ->
                            dist pixels st o n = Some (sqDist px (pal n))).
  { intros n Hn. specialize (Hpal n Hn). unfold paletteEntry in Hpal.
    destruct px as [[pr pg] pb]. destruct (pal n) as [[qr qg] qb].
    cbn [known] in Hpx, Hpal.
    injection Hpx as Er Eg Eb. injection Hpal as ER EG EB.
    unfold dist. rewrite Er, Eg, Eb, ER, EG, EB. reflexivity. }
  assert (Hstep : forall n acc, 0 <= n < 4 ->
            pickStep pixels st o n acc
            = keepNearer (fun n => sqDist px (pal n)) n acc).
  { intros n acc Hn. unfold pickStep. rewrite (Hdist n Hn). reflexivity. }
  unfold pixelIndex.
  change (JS.for_loop 4 0 4 1 (pickStep pixels st o) (200000000, 0))
    with (pickStep pixels st o 3
            (pickStep pixels st o 2
               (pickStep pixels st o 1
                  (pickStep pixels st o 0 (200000000, 0))))).
  rewrite !Hstep by lia.
  exact (keepNearer_nearest (fun n => sqDist px (pal n)) Hbound).
Qed.

End Nearest.

(* ===================================================================== *)
(** * Index assignment in the result of [compress] *)

Section Assignment.

Lemma snd_pair {A B} (a : A) (b : B) : snd (a, b) = b.
Proof. reflexivity. Qed.

(** The code of a block whose endpoints differ. *)
Lemma blockCode_nondegenerate pixels w i j maxC minC hi lo :
  blockEndpoints (blockBBox pixels w i j) = (maxC, minC) ->
  maxC <> minC ->
  orderEndpoints (maxC, minC) = (hi, lo) ->
  blockCode pixels w i j
  = (JS.toUint32 (JS.or (JS.shl lo 16) hi),
     indexWord pixels w i j (setPalette hi lo (freshState []))).
Proof.
  intros Hends Hne Hord. unfold blockCode. rewrite Hends.
  destruct (Z.eqb_spec maxC minC) as [Heq | _]; [contradiction |].
  rewrite Hord. reflexivity.
Qed.

(** While the byte offset of a pixel fits 31 bits, [<< 2] is [4 *]. *)
Lemma index_offset i j w k :
  0 <= k < 16 ->
  0 <= (i + k / 4) * w + (j + k mod 4) ->
  4 * ((i + k / 4) * w + (j + k mod 4)) < 2 ^ 31 ->
  JS.shl ((i + JS.shr k 2) * w + j + JS.and k 3) 2
  = 4 * ((i + k / 4) * w + (j + k mod 4)).
Proof.
  intros Hk Hlo Hhi. rewrite shr_small by lia. rewrite land3_mod4.
  change (2 ^ 2) with 4.
  replace ((i + k / 4) * w + j + k mod 4)
    with ((i + k / 4) * w + (j + k mod 4)) by lia.
  rewrite shl_small; change (2 ^ 2) with 4; lia.
Qed.

Lemma grid_block img bi bj :
  0 <= width img -> 0 <= height img ->
  width img mod 4 = 0 -> height img mod 4 = 0 ->
  0 <= bi < height img / 4 -> 0 <= bj < width img / 4 ->
  blockOf img (4 * bi) (4 * bj).
Proof.
  intros Hw Hh Hw4 Hh4 Hbi Hbj. unfold blockOf.
  pose proof (Z_div_exact_full_2 (width img) 4 ltac:(lia) Hw4).
  pose proof (Z_div_exact_full_2 (height img) 4 ltac:(lia) Hh4). lia.
Qed.

(** X11. On images whose byte offsets fit 31 bits: in the result of
    [compress], a block whose two endpoints differ has an index word that
    packs, at bit offset [2k], the index of the first palette entry nearest
    to pixel [k], the palette being the one rebuilt from the two halves of
    the endpoint word. *)
Theorem nearest_indices img out bi bj e iw :
  validImage img ->
  4 * (width img * height img) < 2 ^ 31 ->
  compress img = JS.Returned (Some out) ->
  0 <= bi < height img / 4 -> 0 <= bj < width img / 4 ->
  out !! Z.to_nat (2 * (bi * (width img / 4) + bj)) = Some e ->
  out !! Z.to_nat (2 * (bi * (width img / 4) + bj) + 1) = Some iw ->
  field e 31 16 <> field e 15 0 ->
  exists idx : Z -> Z,
    iw = packIndices idx 16 /\
    forall k, 0 <= k < 16 ->
      field iw (2 * k + 1) (2 * k) = idx k /\
      exists px,
        pixelAt img (4 * bi + k / 4) (4 * bj + k mod 4) = known px /\
        nearest (paletteOf (field e 15 0) (field e 31 16)) px (idx k).
Proof.
  intros Hv Hsize Hout Hbi Hbj He Hiw Hnd.
  pose proof Hv as (Hw & Hh & Hlen & Hbytes).
  destruct (compress_blocks img out Hw Hh Hout) as (Hw4 & Hh4 & _ & _).
  pose proof (grid_block img bi bj Hw Hh Hw4 Hh4 Hbi Hbj) as Hblk.
  destruct (word_of_block img out bi bj Hw Hh Hout Hbi Hbj) as [H0 H1].
  specialize (H0 e He). specialize (H1 iw Hiw).
  destruct (blockCode_endpoints (data img) (width img) (4 * bi) (4 * bj) Hbytes)
    as (Hhi & Hlo & Hcode).
  destruct (blockEndpoints (blockBBox (data img) (width img) (4 * bi) (4 * bj)))
    as [maxC minC] eqn:Hends.
  destruct (orderEndpoints_spec maxC minC) as (_ & _ & Hcase).
  destruct (orderEndpoints (maxC, minC)) as [hi lo] eqn:Hord.
  cbn [fst snd] in *.
  rewrite Hcode in H0. clear Hcode.
  destruct (endpoint_fields lo hi Hlo Hhi) as [Ef0 Ef1].
  rewrite H0, Ef0, Ef1 in *. clear H0 Ef0 Ef1.
  assert (Hne : maxC <> minC)
    by (destruct Hcase as [[-> ->] | [-> ->]]; congruence).
  rewrite (blockCode_nondegenerate _ _ _ _ _ _ _ _ Hends Hne Hord) in H1.
  rewrite snd_pair, indexWord_pack in H1.
  set (pal := setPalette hi lo (freshState [])) in *.
  set (idx := fun k : Z =>
                pixelIndex (data img) pal
                  (JS.shl ((4 * bi + JS.shr k 2) * width img + 4 * bj
                           + JS.and k 3) 2)) in *.
  assert (Hidx : forall k, 0 <= idx k < 4)
    by (intros k; apply pixelIndex_range).
  exists idx. split; [exact H1 |]. intros k Hk. split.
  - rewrite H1. replace k with (Z.of_nat (Z.to_nat k)) at 1 2 3 by lia.
    apply pack_field; [exact Hidx | lia].
  - destruct (block_read img _ _ k 0 Hv Hblk Hk ltac:(lia)) as [r Er].
    destruct (block_read img _ _ k 1 Hv Hblk Hk ltac:(lia)) as [g Eg].
    destruct (block_read img _ _ k 2 Hv Hblk Hk ltac:(lia)) as [b Eb].
    rewrite Z.add_0_r in Er.
    exists (r, g, b). split.
    + unfold pixelAt. cbv zeta. rewrite Er, Eg, Eb. reflexivity.
    + unfold idx. rewrite index_offset.
      * apply pixelIndex_nearest.
        -- rewrite Er, Eg, Eb. reflexivity.
        -- intros n Hn. apply setPalette_entries;
             (assumption || (repeat split; reflexivity)).
        -- intros n Hn.
           destruct (paletteOf_bytes hi lo n Hhi Hlo)
             as (qr & qg & qb & -> & Hqr & Hqg & Hqb).
           apply sqDist_bound; try assumption;
             eapply bytes_ok_get; eassumption.
      * exact Hk.
      * destruct Hblk as (? & ? & ? & ?).
        pose proof (div_bounds k 4 4 eq_refl ltac:(lia)).
        pose proof (Z.mod_pos_bound k 4 eq_refl). nia.
      * destruct Hblk as (? & ? & ? & ?).
        pose proof (div_bounds k 4 4 eq_refl ltac:(lia)).
        pose proof (Z.mod_pos_bound k 4 eq_refl). nia.
Qed.

Lemma nearest_indices_witness :
  (validImage twoToneImage /\
   4 * (width twoToneImage * height twoToneImage) < 2 ^ 31 /\
   compress twoToneImage = JS.Returned (Some [140638110; 0x5555]) /\
   0 <= 0 < height twoToneImage / 4 /\ 0 <= 0 < width twoToneImage / 4 /\
   [140638110; 0x5555] !! Z.to_nat (2 * (0 * (width twoToneImage / 4) + 0))
   = Some 140638110 /\
   [140638110; 0x5555]
     !! Z.to_nat (2 * (0 * (width twoToneImage / 4) + 0) + 1)
   = Some 0x5555 /\
   field 140638110 31 16 <> field 140638110 15 0) /\
  exists idx : Z -> Z,
    0x5555 = packIndices idx 16 /\
    forall k, 0 <= k < 16 ->
      field 0x5555 (2 * k + 1) (2 * k) = idx k /\
      exists px,
        pixelAt twoToneImage (4 * 0 + k / 4) (4 * 0 + k mod 4) = known px /\
        nearest (paletteOf (field 140638110 15 0) (field 140638110 31 16))
                px (idx k).
Proof.
  assert (H1 : validImage twoToneImage)
    by (unfold validImage; cbn; repeat split; lia).
  assert (H2 : 4 * (width twoToneImage * height twoToneImage) < 2 ^ 31)
    by (vm_compute; reflexivity).
  assert (H3 : compress twoToneImage = JS.Returned (Some [140638110; 0x5555]))
    by (vm_compute; reflexivity).
  assert (H4 : 0 <= 0 < height twoToneImage / 4)
    by (vm_compute; split; [discriminate | reflexivity]).
  assert (H5 : 0 <= 0 < width twoToneImage / 4)
    by (vm_compute; split; [discriminate | reflexivity]).
  assert (H6 : [140638110; 0x5555]
                 !! Z.to_nat (2 * (0 * (width twoToneImage / 4) + 0))
               = Some 140638110) by reflexivity.
  assert (H7 : [140638110; 0x5555]
                 !! Z.to_nat (2 * (0 * (width twoToneImage / 4) + 0) + 1)
               = Some 0x5555) by reflexivity.
  assert (H8 : field 140638110 31 16 <> field 140638110 15 0)
    by (vm_compute; discriminate).
  split; [tauto |].
  exact (nearest_indices twoToneImage [140638110; 0x5555] 0 0 140638110 0x5555
           H1 H2 H3 H4 H5 H6 H7 H8).
Defined.

End Assignment.

(* ===================================================================== *)
(** * Byte offsets beyond 31 bits *)

Section Wrapped.

Lemma get_app_r (pre tail : list Z) o :
  0 <= o -> JS.get (pre ++ tail) (Z.of_nat (length pre) + o) = JS.get tail o.
Proof.
  intros Ho. rewrite !get_lookup by lia.
  rewrite lookup_app_r by lia. f_equal. lia.
Qed.

(** The bounding-box scan computes its offsets with [4 *]: it sees the
    block wherever it lies. *)
Lemma blockBBox_shift pre tail w i j :
  Z.of_nat (length pre) = 4 * (i * w) -> 0 <= w -> 0 <= j ->
  blockBBox (pre ++ tail) w i j = blockBBox tail w 0 j.
Proof.
  intros Hlen Hw Hj. unfold blockBBox.
  apply for_loop_ext_in; [lia |]. intros m bb Hm. unfold scanPixel.
  rewrite !shr_small by lia. rewrite !land3_mod4. change (2 ^ 2) with 4.
  pose proof (div_bounds m 4 4 eq_refl ltac:(lia)).
  pose proof (Z.mod_pos_bound m 4 eq_refl).
  set (o := 4 * ((0 + m / 4) * w + j + m mod 4)).
  assert (Ho : 0 <= o) by (unfold o; nia).
  replace (4 * ((i + m / 4) * w + j + m mod 4))
    with (Z.of_nat (length pre) + o) by (unfold o; lia).
  cbv zeta.
  rewrite <- !Z.add_assoc. rewrite !get_app_r by lia. reflexivity.
Qed.

Lemma pixelIndex_undefined pixels st o :
  JS.get pixels o = None -> pixelIndex pixels st o = 0.
Proof.
  intros Hnone. unfold pixelIndex.
  destruct (for_loop_inv (fun _ acc => acc = (200000000, 0))
              (pickStep pixels st o) 4 1 eq_refl)
    with (fuel := 4%nat) (i := 0) (s := (200000000, 0))
    as (n & _ & ->); [| lia | reflexivity | reflexivity].
  intros n acc _ ->. unfold pickStep, dist. rewrite Hnone. reflexivity.
Qed.

(** The index assigner computes the same offsets with [<< 2]: once they
    wrap to negative numbers every read is undefined, every distance is
    NaN, and every pixel keeps index 0. *)
Lemma indexWord_wrapped pixels w i j pal :
  (forall k, 0 <= k < 16 ->
     JS.shl ((i + JS.shr k 2) * w + j + JS.and k 3) 2 < 0) ->
  indexWord pixels w i j pal = 0.
Proof.
  intros Hneg. unfold indexWord.
  destruct (for_loop_inv (fun k acc => 0 <= k /\ acc = 0)
              (fun k acc =>
                 let offset :=
                   JS.shl ((i + JS.shr k 2) * w + j + JS.and k 3) 2 in
                 JS.toUint32 (JS.or acc (JS.shl (pixelIndex pixels pal offset)
                                                (JS.shl k 1))))
              16 1 eq_refl)
    with (fuel := 16%nat) (i := 0) (s := 0)
    as (k & _ & _ & Hres); [| lia | split; [lia | reflexivity] | exact Hres].
  intros k acc Hk (Hk0 & ->). split; [lia |]. cbv zeta.
  rewrite pixelIndex_undefined.
  - unfold JS.shl at 1. change (JS.toInt32 0) with 0.
    rewrite Z.shiftl_0_l. reflexivity.
  - unfold JS.get. specialize (Hneg k ltac:(lia)).
    destruct (Z.ltb_spec (JS.shl ((i + JS.shr k 2) * w + j + JS.and k 3) 2) 0);
      [reflexivity | lia].
Qed.

Lemma tall_offsets_wrap k :
  0 <= k < 16 ->
  JS.shl ((2 ^ 27 + JS.shr k 2) * 4 + 0 + JS.and k 3) 2 < 0.
Proof.
  intros Hk. rewrite shr_small by lia. rewrite land3_mod4.
  change (2 ^ 2) with 4.
  pose proof (div_bounds k 4 4 eq_refl ltac:(lia)).
  pose proof (Z.mod_pos_bound k 4 eq_refl).
  unfold JS.shl. change (Z.land (JS.toUint32 2) 31) with 2.
  rewrite (toInt32_small ((2 ^ 27 + k / 4) * 4 + 0 + k mod 4))
    by (change (2 ^ 27) with 134217728; change (2 ^ 31) with 2147483648; lia).
  rewrite Z.shiftl_mul_pow2 by lia. change (2 ^ 2) with 4.
  unfold JS.toInt32.
  change (2 ^ 27) with 134217728. change (2 ^ 31) with 2147483648.
  change (2 ^ 32) with 4294967296.
  Z.div_mod_to_equations. lia.
Qed.

(** The code of the [twoTone] block when it lies 2^31 bytes into the
    buffer: the endpoints are those of the block, the index word is 0. *)
Lemma displaced_code pre :
  Z.of_nat (length pre) = 2 ^ 31 ->
  blockCode (pre ++ twoTone) 4 (2 ^ 27) 0 = (140638110, 0).
Proof.
  intros Hlen.
  assert (Hends : blockEndpoints (blockBBox (pre ++ twoTone) 4 (2 ^ 27) 0)
                  = (63390, 2145)).
  { rewrite blockBBox_shift by (try rewrite Hlen; (reflexivity || lia)).
    vm_compute. reflexivity. }
  rewrite (blockCode_nondegenerate _ _ _ _ 63390 2145 63390 2145 Hends);
    [| discriminate | reflexivity].
  rewrite indexWord_wrapped by exact tall_offsets_wrap.
  reflexivity.
Qed.

(** An image that ends with the [twoTone] block, 2^31 bytes in. *)
Lemma displaced_pixel img pre :
  width img = 4 -> data img = pre ++ twoTone ->
  Z.of_nat (length pre) = 2 ^ 31 ->
  pixelAt img (2 ^ 27) 0 = known (0, 0, 0).
Proof.
  intros Hw Hdata Hlen. unfold pixelAt. rewrite Hw, Hdata. cbv zeta.
  replace (4 * (2 ^ 27 * 4 + 0)) with (Z.of_nat (length pre) + 0)
    by (rewrite Hlen; reflexivity).
  rewrite <- !Z.add_assoc. rewrite !get_app_r by lia. reflexivity.
Qed.

Lemma displaced_block img pre out :
  width img = 4 -> height img = 2 ^ 27 + 4 -> data img = pre ++ twoTone ->
  Z.of_nat (length pre) = 2 ^ 31 ->
  compress img = JS.Returned (Some out) ->
  out !! Z.to_nat (2 * (2 ^ 25 * (width img / 4) + 0)) = Some 140638110 /\
  out !! Z.to_nat (2 * (2 ^ 25 * (width img / 4) + 0) + 1) = Some 0.
Proof.
  intros Hw Hh Hdata Hlen Hout.
  destruct (compress_blocks img out ltac:(lia) ltac:(lia) Hout)
    as (_ & _ & Hsize & Hwords).
  specialize (Hwords (2 ^ 25) 0).
  rewrite Hw, Hh, Hdata in Hwords. rewrite Hw, Hh in Hsize. rewrite Hw.
  replace (4 * 2 ^ 25) with (2 ^ 27) in Hwords by reflexivity.
  replace (4 * 0) with 0 in Hwords by reflexivity.
  rewrite (displaced_code _ Hlen) in Hwords.
  replace (2 * (2 ^ 25 * (4 / 4) + 0)) with 67108864 in * by reflexivity.
  replace (JS.shr (4 * (2 ^ 27 + 4)) 3) with 67108866 in Hsize
    by reflexivity.
  destruct Hwords as [H0 H1].
  { replace ((2 ^ 27 + 4) / 4) with 33554433 by reflexivity.
    replace (2 ^ 25) with 33554432 by reflexivity. lia. }
  { replace (4 / 4) with 1 by reflexivity. lia. }
  unfold wordAt in H0, H1. rewrite Hsize in H0, H1.
  split; [apply H0 | apply H1]; apply Z2Nat.inj_lt; lia.
Qed.

Lemma bytes_ok_app p q : bytes_ok (p ++ q) = bytes_ok p && bytes_ok q.
Proof. unfold bytes_ok. apply forallb_app. Qed.

Lemma tallImage_data :
  data tallImage = replicate (Z.to_nat (2 ^ 31)) 0 ++ twoTone.
Proof. reflexivity. Qed.

Lemma tallImage_valid : validImage tallImage.
Proof.
  unfold validImage. rewrite tallImage_data.
  replace (width tallImage) with 4 by reflexivity.
  replace (height tallImage) with (2 ^ 27 + 4) by reflexivity.
  split; [lia |]. split; [lia |]. split.
  - rewrite length_app, length_replicate.
    replace (length twoTone) with 64%nat by reflexivity.
    rewrite Nat2Z.inj_add, Z2Nat.id by lia. reflexivity.
  - rewrite bytes_ok_app, bytes_ok_replicate by lia. reflexivity.
Qed.

(** C5 fails on the last block of [tallImage], which is the block of
    [twoToneImage] placed 2^31 bytes into the buffer.  The image is
    well-formed and its last block starts with a black pixel; [compress]
    stores the endpoints of the block (the same word as for
    [twoToneImage], so the block is not degenerate) and the index word 0,
    which gives the black pixel palette entry 0 although entry 1 is
    nearer.  At the top of an image the same block gets the index word
    [0x5555]. *)
Theorem tall_image_indices :
  validImage tallImage /\
  pixelAt tallImage (2 ^ 27) 0 = known (0, 0, 0) /\
  (exists out,
     compress tallImage = JS.Returned (Some out) /\
     out !! Z.to_nat (2 * (2 ^ 25 * (width tallImage / 4) + 0))
     = Some 140638110 /\
     out !! Z.to_nat (2 * (2 ^ 25 * (width tallImage / 4) + 0) + 1)
     = Some 0) /\
  field 140638110 31 16 <> field 140638110 15 0 /\
  ~ nearest (paletteOf (field 140638110 15 0) (field 140638110 31 16))
      (0, 0, 0) (field 0 1 0) /\
  compress twoToneImage = JS.Returned (Some [140638110; 0x5555]).
Proof.
  assert (Hlen : Z.of_nat (length (replicate (Z.to_nat (2 ^ 31)) 0)) = 2 ^ 31)
    by (rewrite length_replicate; apply Z2Nat.id; lia).
  split; [exact tallImage_valid |].
  split; [| split; [| split; [| split]]].
  - exact (displaced_pixel tallImage _ eq_refl tallImage_data Hlen).
  - destruct (compress_returns tallImage eq_refl eq_refl) as [out Hout].
    { replace (width tallImage * height tallImage) with 536870928
        by reflexivity.
      replace (2 ^ 31) with 2147483648 by reflexivity. lia. }
    exists out. split; [exact Hout |].
    exact (displaced_block tallImage _ out eq_refl eq_refl tallImage_data
             Hlen Hout).
  - vm_compute. discriminate.
  - intros (_ & Hmin & _). specialize (Hmin 1 ltac:(lia)).
    vm_compute in Hmin. apply Hmin. reflexivity.
  - vm_compute. reflexivity.
Qed.

End Wrapped.

(* ===================================================================== *)
(** * Further properties of the codec *)

Section CodecOrder.

Lemma toRGB565_mono r g b r' g' b' :
  byte r -> byte g -> byte b -> byte r' -> byte g' -> byte b' ->
  r <= r' -> g <= g' -> b <= b' ->
  toRGB565 r g b <= toRGB565 r' g' b'.
Proof.
  unfold byte. intros Hr Hg Hb Hr' Hg' Hb' Lr Lg Lb.
  rewrite !toRGB565_arith by assumption.
  pose proof (Z.div_le_mono r r' 8 eq_refl Lr).
  pose proof (Z.div_le_mono g g' 4 eq_refl Lg).
  pose proof (Z.div_le_mono b b' 8 eq_refl Lb). lia.
Qed.

(** X1. Unpacking a 16-bit colour gives three bytes, and packing them again
    gives the colour back; hence packing, unpacking and packing again is
    the same as packing once. *)
Theorem repack_identity c r g b :
  rgb565 c -> byte r -> byte g -> byte b ->
  (byte (rFromRGB565 c) /\ byte (gFromRGB565 c) /\ byte (bFromRGB565 c)) /\
  toRGB565 (rFromRGB565 c) (gFromRGB565 c) (bFromRGB565 c) = c /\
  toRGB565 (rFromRGB565 (toRGB565 r g b)) (gFromRGB565 (toRGB565 r g b))
           (bFromRGB565 (toRGB565 r g b))
  = toRGB565 r g b.
Proof.
  intros Hc Hr Hg Hb.
  assert (Hrepack : forall c, rgb565 c ->
            toRGB565 (rFromRGB565 c) (gFromRGB565 c) (bFromRGB565 c) = c).
  { clear. intros c Hc.
    rewrite toRGB565_arith
      by (apply rFromRGB565_range || apply gFromRGB565_range
          || apply bFromRGB565_range; exact Hc).
    rewrite rFromRGB565_arith, gFromRGB565_arith, bFromRGB565_arith
      by exact Hc.
    unfold rgb565 in Hc.
    pose proof (div_bounds c 2048 32 eq_refl ltac:(lia)) as HR.
    pose proof (Z.mod_pos_bound (c / 32) 64 eq_refl) as HG.
    pose proof (Z.mod_pos_bound c 32 eq_refl) as HB.
    assert (E5 : forall v, 0 <= v < 32 -> (8 * v + v / 4) / 8 = v)
      by (intros v Hv; Z.div_mod_to_equations; lia).
    assert (E6 : forall v, 0 <= v < 64 -> (4 * v + v / 16) / 4 = v)
      by (intros v Hv; Z.div_mod_to_equations; lia).
    rewrite (E5 _ HR), (E6 _ HG), (E5 _ HB).
    Z.div_mod_to_equations. lia. }
  split; [| split].
  - unfold byte. split; [| split].
    + now apply rFromRGB565_range.
    + now apply gFromRGB565_range.
    + now apply bFromRGB565_range.
  - now apply Hrepack.
  - apply Hrepack. now apply toRGB565_range.
Qed.

Lemma repack_identity_witness :
  (rgb565 0xF79E /\ byte 200 /\ byte 100 /\ byte 50) /\
  (byte (rFromRGB565 0xF79E) /\ byte (gFromRGB565 0xF79E) /\
   byte (bFromRGB565 0xF79E)) /\
  toRGB565 (rFromRGB565 0xF79E) (gFromRGB565 0xF79E) (bFromRGB565 0xF79E)
  = 0xF79E /\
  toRGB565 (rFromRGB565 (toRGB565 200 100 50))
           (gFromRGB565 (toRGB565 200 100 50))
           (bFromRGB565 (toRGB565 200 100 50))
  = toRGB565 200 100 50.
Proof.
  assert (H1 : rgb565 0xF79E) by (unfold rgb565; lia).
  assert (H2 : byte 200) by (unfold byte; lia).
  assert (H3 : byte 100) by (unfold byte; lia).
  assert (H4 : byte 50) by (unfold byte; lia).
  split; [tauto |]. exact (repack_identity 0xF79E 200 100 50 H1 H2 H3 H4).
Defined.

(** X2. The numeric order of two packed colours is the lexicographic order
    of their quantised red, green and blue fields; in particular a colour
    that is no larger on any channel never packs to a larger value. *)
Theorem pack_order r g b r' g' b' :
  byte r -> byte g -> byte b -> byte r' -> byte g' -> byte b' ->
  (toRGB565 r g b < toRGB565 r' g' b' <->
   lexLt (quantised r g b) (quantised r' g' b')) /\
  (r <= r' /\ g <= g' /\ b <= b' -> toRGB565 r g b <= toRGB565 r' g' b').
Proof.
  intros Hr Hg Hb Hr' Hg' Hb'. split.
  - unfold byte in *. rewrite !toRGB565_arith by assumption.
    unfold lexLt, quantised.
    pose proof (div_bounds r 8 32 eq_refl ltac:(lia)).
    pose proof (div_bounds g 4 64 eq_refl ltac:(lia)).
    pose proof (div_bounds b 8 32 eq_refl ltac:(lia)).
    pose proof (div_bounds r' 8 32 eq_refl ltac:(lia)).
    pose proof (div_bounds g' 4 64 eq_refl ltac:(lia)).
    pose proof (div_bounds b' 8 32 eq_refl ltac:(lia)).
    generalize dependent (r / 8). generalize dependent (g / 4).
    generalize dependent (b / 8). generalize dependent (r' / 8).
    generalize dependent (g' / 4). generalize dependent (b' / 8).
    intros. lia.
  - intros (Lr & Lg & Lb). now apply toRGB565_mono.
Qed.

Lemma pack_order_witness :
  (byte 10 /\ byte 20 /\ byte 30 /\ byte 200 /\ byte 100 /\ byte 50) /\
  (toRGB565 10 20 30 < toRGB565 200 100 50 <->
   lexLt (quantised 10 20 30) (quantised 200 100 50)) /\
  (10 <= 200 /\ 20 <= 100 /\ 30 <= 50 ->
   toRGB565 10 20 30 <= toRGB565 200 100 50).
Proof.
  assert (H1 : byte 10) by (unfold byte; lia).
  assert (H2 : byte 20) by (unfold byte; lia).
  assert (H3 : byte 30) by (unfold byte; lia).
  assert (H4 : byte 200) by (unfold byte; lia).
  assert (H5 : byte 100) by (unfold byte; lia).
  assert (H6 : byte 50) by (unfold byte; lia).
  split; [tauto |]. exact (pack_order 10 20 30 200 100 50 H1 H2 H3 H4 H5 H6).
Defined.

End CodecOrder.

(* ===================================================================== *)
(** * Further properties of the block analyser and the palette *)

Section BlockFacts.

(** The inset keeps the two bounds of a channel in order. *)
Lemma clamps_ordered max min :
  ordered max min ->
  byte (clampLow max (insetOf max min)) /\
  byte (clampHigh min (insetOf max min)) /\
  min <= clampHigh min (insetOf max min) /\
  clampHigh min (insetOf max min) <= clampLow max (insetOf max min) /\
  clampLow max (insetOf max min) <= max.
Proof.
  intros Hord. pose proof Hord as [Hmm Hmax].
  destruct (channel_guards max min (or_intror Hord))
    as (_ & _ & _ & _ & -> & ->).
  rewrite insetOf_div by lia. unfold byte.
  pose proof (div_bounds (max - min) 16 16 eq_refl ltac:(lia)).
  Z.div_mod_to_equations. lia.
Qed.

(** X3. In every block of a well-formed image the inset leaves each channel
    of the min endpoint at most the same channel of the max endpoint, both
    inside the bounding box; so [minColor565 <= maxColor565] already holds
    before the swap of lines 148-152, which therefore changes nothing. *)
Theorem swap_idle img i j :
  validImage img -> blockOf img i j ->
  let bb := blockBBox (data img) (width img) i j in
  (minR bb <= clampHigh (minR bb) (insetOf (maxR bb) (minR bb))
   <= clampLow (maxR bb) (insetOf (maxR bb) (minR bb)) /\
   clampLow (maxR bb) (insetOf (maxR bb) (minR bb)) <= maxR bb) /\
  (minG bb <= clampHigh (minG bb) (insetOf (maxG bb) (minG bb))
   <= clampLow (maxG bb) (insetOf (maxG bb) (minG bb)) /\
   clampLow (maxG bb) (insetOf (maxG bb) (minG bb)) <= maxG bb) /\
  (minB bb <= clampHigh (minB bb) (insetOf (maxB bb) (minB bb))
   <= clampLow (maxB bb) (insetOf (maxB bb) (minB bb)) /\
   clampLow (maxB bb) (insetOf (maxB bb) (minB bb)) <= maxB bb) /\
  snd (blockEndpoints bb) <= fst (blockEndpoints bb) /\
  orderEndpoints (blockEndpoints bb) = blockEndpoints bb.
Proof.
  intros Hv Hblk bb.
  destruct (blockBBox_ordered img i j Hv Hblk) as (HR & HG & HB).
  fold bb in HR, HG, HB. clearbody bb.
  destruct (clamps_ordered _ _ HR) as (R1 & R2 & R3 & R4 & R5).
  destruct (clamps_ordered _ _ HG) as (G1 & G2 & G3 & G4 & G5).
  destruct (clamps_ordered _ _ HB) as (B1 & B2 & B3 & B4 & B5).
  assert (Hle : snd (blockEndpoints bb) <= fst (blockEndpoints bb)).
  { unfold blockEndpoints. cbn [fst snd]. now apply toRGB565_mono. }
  repeat split; try assumption.
  destruct (blockEndpoints bb) as [maxC minC]. cbn [fst snd] in Hle.
  unfold orderEndpoints. destruct (Z.ltb_spec maxC minC); [lia | reflexivity].
Qed.

Lemma swap_idle_witness :
  (validImage twoToneImage /\ blockOf twoToneImage 0 0) /\
  let bb := blockBBox (data twoToneImage) (width twoToneImage) 0 0 in
  (minR bb <= clampHigh (minR bb) (insetOf (maxR bb) (minR bb))
   <= clampLow (maxR bb) (insetOf (maxR bb) (minR bb)) /\
   clampLow (maxR bb) (insetOf (maxR bb) (minR bb)) <= maxR bb) /\
  (minG bb <= clampHigh (minG bb) (insetOf (maxG bb) (minG bb))
   <= clampLow (maxG bb) (insetOf (maxG bb) (minG bb)) /\
   clampLow (maxG bb) (insetOf (maxG bb) (minG bb)) <= maxG bb) /\
  (minB bb <= clampHigh (minB bb) (insetOf (maxB bb) (minB bb))
   <= clampLow (maxB bb) (insetOf (maxB bb) (minB bb)) /\
   clampLow (maxB bb) (insetOf (maxB bb) (minB bb)) <= maxB bb) /\
  snd (blockEndpoints bb) <= fst (blockEndpoints bb) /\
  orderEndpoints (blockEndpoints bb) = blockEndpoints bb.
Proof.
  assert (H1 : validImage twoToneImage)
    by (unfold validImage; cbn; repeat split; lia).
  assert (H2 : blockOf twoToneImage 0 0) by (unfold blockOf; cbn; lia).
  split; [tauto |]. exact (swap_idle twoToneImage 0 0 H1 H2).
Defined.

(** X4. After the palette builder, each of the four entries holds three
    bytes, and every channel of every entry lies between the same channel
    of the two expanded endpoints. *)
Theorem palette_between maxColor565 minColor565 st n :
  rgb565 maxColor565 -> rgb565 minColor565 -> palette_sized st ->
  0 <= n < 4 ->
  exists r g b,
    paletteEntry (setPalette maxColor565 minColor565 st) n = known (r, g, b) /\
    (byte r /\ byte g /\ byte b) /\
    between (rFromRGB565 maxColor565) (rFromRGB565 minColor565) r /\
    between (gFromRGB565 maxColor565) (gFromRGB565 minColor565) g /\
    between (bFromRGB565 maxColor565) (bFromRGB565 minColor565) b.
Proof.
  intros Hmax Hmin Hst Hn.
  rewrite setPalette_entries by assumption.
  pose proof (rFromRGB565_range _ Hmax). pose proof (rFromRGB565_range _ Hmin).
  pose proof (gFromRGB565_range _ Hmax). pose proof (gFromRGB565_range _ Hmin).
  pose proof (bFromRGB565_range _ Hmax). pose proof (bFromRGB565_range _ Hmin).
  assert (Hmix : forall a b x y,
            0 <= x < 256 -> 0 <= y < 256 ->
            (a = 2 /\ b = 1) \/ (a = 1 /\ b = 2) ->
            0 <= Z.quot (a * x + b * y) 3 < 256 /\
            Z.min x y <= Z.quot (a * x + b * y) 3 <= Z.max x y).
  { clear. intros a b x y Hx Hy Hab.
    rewrite Z.quot_div_nonneg by lia.
    destruct Hab as [[-> ->] | [-> ->]]; Z.div_mod_to_equations; lia. }
  unfold paletteOf, expand, mix.
  destruct (n =? 0); [| destruct (n =? 1); [| destruct (n =? 2)]];
    do 3 eexists; (split; [reflexivity |]); unfold byte, between.
  - lia.
  - lia.
  - pose proof (Hmix 2 1 _ _ H H0 ltac:(lia)).
    pose proof (Hmix 2 1 _ _ H1 H2 ltac:(lia)).
    pose proof (Hmix 2 1 _ _ H3 H4 ltac:(lia)). tauto.
  - pose proof (Hmix 1 2 _ _ H H0 ltac:(lia)).
    pose proof (Hmix 1 2 _ _ H1 H2 ltac:(lia)).
    pose proof (Hmix 1 2 _ _ H3 H4 ltac:(lia)). tauto.
Qed.

Lemma palette_between_witness :
  (rgb565 0xF79E /\ rgb565 0x0861 /\ palette_sized (freshState []) /\
   0 <= 2 < 4) /\
  exists r g b,
    paletteEntry (setPalette 0xF79E 0x0861 (freshState [])) 2
    = known (r, g, b) /\
    (byte r /\ byte g /\ byte b) /\
    between (rFromRGB565 0xF79E) (rFromRGB565 0x0861) r /\
    between (gFromRGB565 0xF79E) (gFromRGB565 0x0861) g /\
    between (bFromRGB565 0xF79E) (bFromRGB565 0x0861) b.
Proof.
  assert (H1 : rgb565 0xF79E) by (unfold rgb565; lia).
  assert (H2 : rgb565 0x0861) by (unfold rgb565; lia).
  assert (H3 : palette_sized (freshState [])) by (repeat split).
  assert (H4 : 0 <= 2 < 4) by lia.
  split; [tauto |].
  exact (palette_between 0xF79E 0x0861 (freshState []) 2 H1 H2 H3 H4).
Defined.

End BlockFacts.

(* ===================================================================== *)
(** * Further properties of the two entry points *)

Section EntryPoints.

(** X5. An image with no pixels (a width or a height of 0, the other a
    multiple of 4) compresses to the empty buffer, whatever its [data]
    holds. *)
Theorem compress_empty img :
  0 <= width img -> 0 <= height img ->
  width img mod 4 = 0 -> height img mod 4 = 0 ->
  width img * height img = 0 ->
  compress img = JS.Returned (Some []).
Proof.
  intros Hw Hh Hw4 Hh4 Hzero.
  destruct (compress_returns img Hw4 Hh4) as [out Hout];
    [rewrite Hzero; split; [lia | reflexivity] |].
  destruct (compress_blocks img out Hw Hh Hout) as (_ & _ & Hlen & _).
  rewrite Hzero in Hlen. change (Z.to_nat (JS.shr 0 3)) with 0%nat in Hlen.
  apply nil_length_inv in Hlen. now subst out.
Qed.

Lemma compress_empty_witness :
  (0 <= width {| width := 0; height := 8; data := [1; 2; 3] |} /\
   0 <= height {| width := 0; height := 8; data := [1; 2; 3] |} /\
   width {| width := 0; height := 8; data := [1; 2; 3] |} mod 4 = 0 /\
   height {| width := 0; height := 8; data := [1; 2; 3] |} mod 4 = 0 /\
   width {| width := 0; height := 8; data := [1; 2; 3] |}
   * height {| width := 0; height := 8; data := [1; 2; 3] |} = 0) /\
  compress {| width := 0; height := 8; data := [1; 2; 3] |}
  = JS.Returned (Some []).
Proof.
  assert (H1 : 0 <= width {| width := 0; height := 8; data := [1; 2; 3] |})
    by (cbn; lia).
  assert (H2 : 0 <= height {| width := 0; height := 8; data := [1; 2; 3] |})
    by (cbn; lia).
  assert (H3 : width {| width := 0; height := 8; data := [1; 2; 3] |} mod 4 = 0)
    by reflexivity.
  assert (H4 : height {| width := 0; height := 8; data := [1; 2; 3] |} mod 4 = 0)
    by reflexivity.
  assert (H5 : width {| width := 0; height := 8; data := [1; 2; 3] |}
               * height {| width := 0; height := 8; data := [1; 2; 3] |} = 0)
    by reflexivity.
  split; [tauto |].
  exact (compress_empty {| width := 0; height := 8; data := [1; 2; 3] |}
           H1 H2 H3 H4 H5).
Defined.


(** X7. For dimensions whose product is below 2^31, [getTransparentImage]
    returns a buffer exactly when [W * H / 8] is a multiple of 1024, the
    size of the fill pattern: the buffer then has [W * H / 8] words, all
    [0xffffffff]; in every other case the copy of the pattern throws. *)
Theorem transparent_outcome width height :
  0 <= width * height < 2 ^ 31 ->
  ((width * height / 8) mod 1024 = 0 ->
   exists buf,
     getTransparentImage width height = JS.Returned buf /\
     Z.of_nat (length buf) = width * height / 8 /\
     Forall (fun word => word = 0xffffffff) buf) /\
  ((width * height / 8) mod 1024 <> 0 ->
   getTransparentImage width height = JS.RangeError).
Proof.
  intros Hsize. rewrite getTransparentImage_outcome by exact Hsize.
  pose proof (Z.div_pos (width * height) 8 ltac:(lia) eq_refl) as Hn.
  destruct (Z.eqb_spec ((width * height / 8) mod 1024) 0) as [Hz | Hnz].
  - split; [intros _ | contradiction].
    eexists. split; [reflexivity |]. split.
    + rewrite length_replicate. now apply Z2Nat.id.
    + now apply Forall_replicate.
  - split; [contradiction | reflexivity].
Qed.

Lemma transparent_outcome_witness :
  0 <= 128 * 128 < 2 ^ 31 /\
  ((128 * 128 / 8) mod 1024 = 0 ->
   exists buf,
     getTransparentImage 128 128 = JS.Returned buf /\
     Z.of_nat (length buf) = 128 * 128 / 8 /\
     Forall (fun word => word = 0xffffffff) buf) /\
  ((128 * 128 / 8) mod 1024 <> 0 ->
   getTransparentImage 128 128 = JS.RangeError).
Proof.
  assert (H : 0 <= 128 * 128 < 2 ^ 31) by (vm_compute; split; discriminate || reflexivity).
  split; [exact H |]. exact (transparent_outcome 128 128 H).
Defined.

End EntryPoints.

(* ===================================================================== *)
(** * What a block depends on *)

Section Locality.

Lemma pixelIndex_reads p1 p2 st o1 o2 :
  JS.get p1 o1 = JS.get p2 o2 ->
  JS.get p1 (o1 + 1) = JS.get p2 (o2 + 1) ->
  JS.get p1 (o1 + 2) = JS.get p2 (o2 + 2) ->
  pixelIndex p1 st o1 = pixelIndex p2 st o2.
Proof.
  intros E0 E1 E2. unfold pixelIndex.
  rewrite (for_loop_ext (pickStep p1 st o1) (pickStep p2 st o2));
    [reflexivity |].
  intros n acc. unfold pickStep, dist. now rewrite E0, E1, E2.
Qed.

(** The code of a block is a function of the forty-eight colour bytes of
    its sixteen pixels, as long as their byte offsets fit 31 bits. *)
Lemma blockCode_reads p1 w1 i1 j1 p2 w2 i2 j2 :
  (forall m c, 0 <= m < 16 -> 0 <= c < 3 ->
     JS.get p1 (4 * ((i1 + m / 4) * w1 + (j1 + m mod 4)) + c)
     = JS.get p2 (4 * ((i2 + m / 4) * w2 + (j2 + m mod 4)) + c)) ->
  (forall m, 0 <= m < 16 ->
     0 <= (i1 + m / 4) * w1 + (j1 + m mod 4) /\
     4 * ((i1 + m / 4) * w1 + (j1 + m mod 4)) < 2 ^ 31) ->
  (forall m, 0 <= m < 16 ->
     0 <= (i2 + m / 4) * w2 + (j2 + m mod 4) /\
     4 * ((i2 + m / 4) * w2 + (j2 + m mod 4)) < 2 ^ 31) ->
  blockCode p1 w1 i1 j1 = blockCode p2 w2 i2 j2.
Proof.
  intros Hreads Hfit1 Hfit2.
  assert (H0 : forall m, 0 <= m < 16 ->
     JS.get p1 (4 * ((i1 + m / 4) * w1 + (j1 + m mod 4)))
     = JS.get p2 (4 * ((i2 + m / 4) * w2 + (j2 + m mod 4)))).
  { intros m Hm. specialize (Hreads m 0 Hm ltac:(lia)).
    now rewrite !Z.add_0_r in Hreads. }
  assert (Hbb : blockBBox p1 w1 i1 j1 = blockBBox p2 w2 i2 j2).
  { unfold blockBBox. apply for_loop_ext_in; [lia |].
    intros m bb Hm. unfold scanPixel. rewrite !scan_offset by lia. cbv zeta.
    now rewrite (H0 m), (Hreads m 1), (Hreads m 2) by lia. }
  assert (Hiw : forall pal,
             indexWord p1 w1 i1 j1 pal = indexWord p2 w2 i2 j2 pal).
  { intros pal. unfold indexWord. apply for_loop_ext_in; [lia |].
    intros k acc Hk. cbv zeta.
    rewrite !index_offset by (assumption || apply Hfit1 || apply Hfit2; lia).
    rewrite (pixelIndex_reads p1 p2 pal _ _ (H0 k ltac:(lia))
               (Hreads k 1 ltac:(lia) ltac:(lia))
               (Hreads k 2 ltac:(lia) ltac:(lia))).
    reflexivity. }
  unfold blockCode. rewrite Hbb.
  destruct (blockEndpoints (blockBBox p2 w2 i2 j2)) as [maxC minC].
  destruct (maxC =? minC); [reflexivity |].
  destruct (orderEndpoints (maxC, minC)) as [hi lo].
  rewrite Hiw. reflexivity.
Qed.

(** Every pixel of a block of the grid has a byte offset below [4 W H]. *)
Lemma grid_fits w h bi bj m :
  0 <= w -> 0 <= h -> w mod 4 = 0 -> h mod 4 = 0 ->
  0 <= bi < h / 4 -> 0 <= bj < w / 4 -> 0 <= m < 16 ->
  0 <= (4 * bi + m / 4) * w + (4 * bj + m mod 4) < w * h.
Proof.
  intros Hw Hh Hw4 Hh4 Hbi Hbj Hm.
  pose proof (Z_div_exact_full_2 w 4 ltac:(lia) Hw4).
  pose proof (Z_div_exact_full_2 h 4 ltac:(lia) Hh4).
  pose proof (div_bounds m 4 4 eq_refl ltac:(lia)).
  pose proof (Z.mod_pos_bound m 4 eq_refl).
  set (a := m / 4) in *. set (b := m mod 4) in *. nia.
Qed.

Lemma word_count w h :
  0 <= w -> 0 <= h -> w mod 4 = 0 -> h mod 4 = 0 -> w * h < 2 ^ 31 ->
  JS.shr (w * h) 3 = 2 * (h / 4 * (w / 4)).
Proof.
  intros Hw Hh Hw4 Hh4 Hsize. rewrite shr_small by nia. change (2 ^ 3) with 8.
  pose proof (Z_div_exact_full_2 w 4 ltac:(lia) Hw4) as Ew.
  pose proof (Z_div_exact_full_2 h 4 ltac:(lia) Hh4) as Eh.
  set (a := w / 4) in *. set (b := h / 4) in *.
  rewrite Ew, Eh.
  replace (4 * a * (4 * b)) with (2 * (b * a) * 8) by lia.
  apply Z.div_mul. lia.
Qed.

(** Below 2^31 pixels the result holds the two words of every block. *)
Lemma compress_word img out bi bj :
  0 <= width img -> 0 <= height img ->
  width img * height img < 2 ^ 31 ->
  compress img = JS.Returned (Some out) ->
  0 <= bi < height img / 4 -> 0 <= bj < width img / 4 ->
  out !! Z.to_nat (2 * (bi * (width img / 4) + bj))
  = Some (fst (blockCode (data img) (width img) (4 * bi) (4 * bj))) /\
  out !! Z.to_nat (2 * (bi * (width img / 4) + bj) + 1)
  = Some (snd (blockCode (data img) (width img) (4 * bi) (4 * bj))).
Proof.
  intros Hw Hh Hsize Hout Hbi Hbj.
  destruct (compress_blocks img out Hw Hh Hout)
    as (Hw4 & Hh4 & Hlen & Hwords).
  rewrite word_count in Hlen by assumption.
  destruct (Hwords bi bj Hbi Hbj) as [H0 H1]. unfold wordAt in H0, H1.
  split; [apply H0 | apply H1]; rewrite Hlen; apply Z2Nat.inj_lt; nia.
Qed.

Lemma sameNum_eq a b : sameNum a b = true -> a = b.
Proof.
  destruct a as [x |], b as [y |]; cbn; try discriminate; [| reflexivity].
  intros H. apply Z.eqb_eq in H. now subst.
Qed.

Lemma sameBlock_reads img1 img2 i j :
  sameBlock img1 img2 i j = true ->
  forall m c, 0 <= m < 16 -> 0 <= c < 3 ->
    JS.get (data img1) (4 * ((i + m / 4) * width img1 + (j + m mod 4)) + c)
    = JS.get (data img2) (4 * ((i + m / 4) * width img2 + (j + m mod 4)) + c).
Proof.
  unfold sameBlock. intros Hall m c Hm Hc.
  pose proof (forall_below _ 16 Hall m ltac:(lia)) as Hpx.
  cbv beta in Hpx. unfold pixelAt in Hpx. cbv zeta in Hpx.
  apply andb_prop in Hpx as [Hpx Eb]. apply andb_prop in Hpx as [Er Eg].
  apply sameNum_eq in Er, Eg, Eb.
  assert (Hcase : c = 0 \/ c = 1 \/ c = 2) by lia.
  destruct Hcase as [-> | [-> | ->]];
    rewrite ?Z.add_0_r; assumption.
Qed.

(** X8. Two images of the same width that hold the same colours in one
    block of the grid have the same endpoint word and the same index word
    for that block, whatever the rest of the two images holds (for images
    whose byte offsets fit 31 bits). *)
Theorem block_locality img1 img2 out1 out2 bi bj :
  width img2 = width img1 ->
  0 <= width img1 -> 0 <= height img1 -> 0 <= height img2 ->
  4 * (width img1 * height img1) < 2 ^ 31 ->
  4 * (width img1 * height img2) < 2 ^ 31 ->
  compress img1 = JS.Returned (Some out1) ->
  compress img2 = JS.Returned (Some out2) ->
  0 <= bi < height img1 / 4 -> 0 <= bi < height img2 / 4 ->
  0 <= bj < width img1 / 4 ->
  sameBlock img1 img2 (4 * bi) (4 * bj) = true ->
  exists e iw,
    out1 !! Z.to_nat (2 * (bi * (width img1 / 4) + bj)) = Some e /\
    out2 !! Z.to_nat (2 * (bi * (width img1 / 4) + bj)) = Some e /\
    out1 !! Z.to_nat (2 * (bi * (width img1 / 4) + bj) + 1) = Some iw /\
    out2 !! Z.to_nat (2 * (bi * (width img1 / 4) + bj) + 1) = Some iw.
Proof.
  intros Ew Hw Hh1 Hh2 Hs1 Hs2 Hout1 Hout2 Hbi1 Hbi2 Hbj Hsame.
  destruct (compress_blocks img1 out1 Hw Hh1 Hout1) as (Hw4 & Hh14 & _ & _).
  destruct (compress_blocks img2 out2 ltac:(lia) Hh2 Hout2)
    as (_ & Hh24 & _ & _).
  destruct (compress_word img1 out1 bi bj Hw Hh1 ltac:(lia) Hout1 Hbi1 Hbj)
    as [A0 A1].
  destruct (compress_word img2 out2 bi bj ltac:(lia) Hh2
              ltac:(rewrite Ew; lia) Hout2 Hbi2 ltac:(rewrite Ew; exact Hbj))
    as [B0 B1].
  rewrite Ew in B0, B1.
  assert (Hcode : blockCode (data img2) (width img1) (4 * bi) (4 * bj)
                  = blockCode (data img1) (width img1) (4 * bi) (4 * bj)).
  { symmetry. apply blockCode_reads.
    - intros m c Hm Hc.
      rewrite (sameBlock_reads img1 img2 _ _ Hsame m c Hm Hc), Ew.
      reflexivity.
    - intros m Hm.
      pose proof (grid_fits _ _ bi bj m Hw Hh1 Hw4 Hh14 Hbi1 Hbj Hm). lia.
    - intros m Hm.
      pose proof (grid_fits _ _ bi bj m Hw Hh2 Hw4 Hh24 Hbi2 Hbj Hm). lia. }
  rewrite Hcode in B0, B1.
  eexists. eexists. split; [exact A0 |]. split; [exact B0 |].
  split; [exact A1 | exact B1].
Qed.

Lemma block_locality_witness :
  (width (stackRows twoToneImage (solidImage 10 20 30)) = width twoToneImage /\
   0 <= width twoToneImage /\ 0 <= height twoToneImage /\
   0 <= height (stackRows twoToneImage (solidImage 10 20 30)) /\
   4 * (width twoToneImage * height twoToneImage) < 2 ^ 31 /\
   4 * (width twoToneImage
        * height (stackRows twoToneImage (solidImage 10 20 30))) < 2 ^ 31 /\
   compress twoToneImage = JS.Returned (Some [140638110; 21845]) /\
   compress (stackRows twoToneImage (solidImage 10 20 30))
   = JS.Returned (Some [140638110; 21845; 144902307; 0]) /\
   0 <= 0 < height twoToneImage / 4 /\
   0 <= 0 < height (stackRows twoToneImage (solidImage 10 20 30)) / 4 /\
   0 <= 0 < width twoToneImage / 4 /\
   sameBlock twoToneImage (stackRows twoToneImage (solidImage 10 20 30))
     (4 * 0) (4 * 0) = true) /\
  exists e iw,
    [140638110; 21845] !! Z.to_nat (2 * (0 * (width twoToneImage / 4) + 0))
    = Some e /\
    [140638110; 21845; 144902307; 0]
      !! Z.to_nat (2 * (0 * (width twoToneImage / 4) + 0)) = Some e /\
    [140638110; 21845]
      !! Z.to_nat (2 * (0 * (width twoToneImage / 4) + 0) + 1) = Some iw /\
    [140638110; 21845; 144902307; 0]
      !! Z.to_nat (2 * (0 * (width twoToneImage / 4) + 0) + 1) = Some iw.
Proof.
  assert (H1 : width (stackRows twoToneImage (solidImage 10 20 30))
               = width twoToneImage) by reflexivity.
  assert (H2 : 0 <= width twoToneImage) by (vm_compute; discriminate).
  assert (H3 : 0 <= height twoToneImage) by (vm_compute; discriminate).
  assert (H4 : 0 <= height (stackRows twoToneImage (solidImage 10 20 30)))
    by (vm_compute; discriminate).
  assert (H5 : 4 * (width twoToneImage * height twoToneImage) < 2 ^ 31)
    by (vm_compute; reflexivity).
  assert (H6 : 4 * (width twoToneImage
                    * height (stackRows twoToneImage (solidImage 10 20 30)))
               < 2 ^ 31) by (vm_compute; reflexivity).
  assert (H7 : compress twoToneImage = JS.Returned (Some [140638110; 21845]))
    by (vm_compute; reflexivity).
  assert (H8 : compress (stackRows twoToneImage (solidImage 10 20 30))
               = JS.Returned (Some [140638110; 21845; 144902307; 0]))
    by (vm_compute; reflexivity).
  assert (H9 : 0 <= 0 < height twoToneImage / 4)
    by (vm_compute; split; [discriminate | reflexivity]).
  assert (H10 : 0 <= 0
                < height (stackRows twoToneImage (solidImage 10 20 30)) / 4)
    by (vm_compute; split; [discriminate | reflexivity]).
  assert (H11 : 0 <= 0 < width twoToneImage / 4)
    by (vm_compute; split; [discriminate | reflexivity]).
  assert (H12 : sameBlock twoToneImage
                  (stackRows twoToneImage (solidImage 10 20 30))
                  (4 * 0) (4 * 0) = true) by (vm_compute; reflexivity).
  split; [tauto |].
  exact (block_locality twoToneImage
           (stackRows twoToneImage (solidImage 10 20 30))
           [140638110; 21845] [140638110; 21845; 144902307; 0] 0 0
           H1 H2 H3 H4 H5 H6 H7 H8 H9 H10 H11 H12).
Defined.

Lemma get_beyond (pixels : list Z) o :
  Z.of_nat (length pixels) <= o -> JS.get pixels o = None.
Proof.
  intros Ho. unfold JS.get. destruct (o <? 0); [reflexivity |].
  apply lookup_ge_None_2. lia.
Qed.

Lemma blockBBox_undefined pixels w i j :
  (forall m c, 0 <= m < 16 -> 0 <= c < 3 ->
     JS.get pixels (4 * ((i + m / 4) * w + (j + m mod 4)) + c) = None) ->
  blockBBox pixels w i j
  = {| maxR := 0; maxG := 0; maxB := 0;
       minR := 0xff; minG := 0xff; minB := 0xff |}.
Proof.
  intros Hnone. unfold blockBBox.
  destruct (for_loop_inv
              (fun m bb => 0 <= m /\
                 bb = {| maxR := 0; maxG := 0; maxB := 0;
                         minR := 0xff; minG := 0xff; minB := 0xff |})
              (scanPixel pixels w i j) 16 1 eq_refl)
    with (fuel := 16%nat) (i := 0)
         (s := {| maxR := 0; maxG := 0; maxB := 0;
                  minR := 0xff; minG := 0xff; minB := 0xff |})
    as (m & _ & _ & Hres); [| lia | split; [lia | reflexivity] | exact Hres].
  intros m bb Hm (Hm0 & ->). split; [lia |].
  unfold scanPixel. rewrite scan_offset by lia. cbv zeta.
  pose proof (Hnone m 0 ltac:(lia) ltac:(lia)) as E0.
  rewrite Z.add_0_r in E0.
  rewrite E0, (Hnone m 1), (Hnone m 2) by lia. reflexivity.
Qed.

Lemma indexWord_undefined pixels w i j pal :
  (forall k, 0 <= k < 16 ->
     JS.get pixels (4 * ((i + k / 4) * w + (j + k mod 4))) = None) ->
  (forall k, 0 <= k < 16 ->
     0 <= (i + k / 4) * w + (j + k mod 4) /\
     4 * ((i + k / 4) * w + (j + k mod 4)) < 2 ^ 31) ->
  indexWord pixels w i j pal = 0.
Proof.
  intros Hnone Hfit. unfold indexWord.
  destruct (for_loop_inv (fun k acc => 0 <= k /\ acc = 0)
              (fun k acc =>
                 let offset :=
                   JS.shl ((i + JS.shr k 2) * w + j + JS.and k 3) 2 in
                 JS.toUint32 (JS.or acc (JS.shl (pixelIndex pixels pal offset)
                                                (JS.shl k 1))))
              16 1 eq_refl)
    with (fuel := 16%nat) (i := 0) (s := 0)
    as (k & _ & _ & Hres); [| lia | split; [lia | reflexivity] | exact Hres].
  intros k acc Hk (Hk0 & ->). split; [lia |]. cbv zeta.
  rewrite index_offset by (lia || apply Hfit; lia).
  rewrite pixelIndex_undefined by (apply Hnone; lia).
  unfold JS.shl at 1. change (JS.toInt32 0) with 0.
  rewrite Z.shiftl_0_l. reflexivity.
Qed.

(** A block none of whose colour bytes is in the buffer keeps the initial
    bounding box (maxima 0, minima 255): its endpoints come out as
    0x1082 and 0xEF7D, are swapped, and every index stays 0. *)
Lemma blockCode_undefined pixels w i j :
  (forall m c, 0 <= m < 16 -> 0 <= c < 3 ->
     JS.get pixels (4 * ((i + m / 4) * w + (j + m mod 4)) + c) = None) ->
  (forall m, 0 <= m < 16 ->
     0 <= (i + m / 4) * w + (j + m mod 4) /\
     4 * ((i + m / 4) * w + (j + m mod 4)) < 2 ^ 31) ->
  blockCode pixels w i j = (0x1082EF7D, 0).
Proof.
  intros Hnone Hfit.
  rewrite (blockCode_nondegenerate pixels w i j 0x1082 0xEF7D 0xEF7D 0x1082).
  - rewrite indexWord_undefined; [reflexivity | | exact Hfit].
    intros k Hk. specialize (Hnone k 0 Hk ltac:(lia)).
    now rewrite Z.add_0_r in Hnone.
  - rewrite blockBBox_undefined by exact Hnone. reflexivity.
  - discriminate.
  - reflexivity.
Qed.

(** X9. An image object whose pixel buffer is shorter than its declared
    size is not rejected: every block of the grid that starts at or after
    the end of the buffer is encoded as the endpoint word 0x1082EF7D with
    the index word 0 (for declared sizes whose byte offsets fit 31
    bits). *)
Theorem block_beyond_buffer img out bi bj :
  0 <= width img -> 0 <= height img ->
  4 * (width img * height img) < 2 ^ 31 ->
  compress img = JS.Returned (Some out) ->
  0 <= bi < height img / 4 -> 0 <= bj < width img / 4 ->
  Z.of_nat (length (data img)) <= 4 * (4 * bi * width img + 4 * bj) ->
  out !! Z.to_nat (2 * (bi * (width img / 4) + bj)) = Some 0x1082EF7D /\
  out !! Z.to_nat (2 * (bi * (width img / 4) + bj) + 1) = Some 0.
Proof.
  intros Hw Hh Hsize Hout Hbi Hbj Hshort.
  destruct (compress_blocks img out Hw Hh Hout) as (Hw4 & Hh4 & _ & _).
  destruct (compress_word img out bi bj Hw Hh ltac:(lia) Hout Hbi Hbj)
    as [A0 A1].
  rewrite blockCode_undefined in A0, A1.
  - split; [exact A0 | exact A1].
  - intros m c Hm Hc. apply get_beyond.
    pose proof (div_bounds m 4 4 eq_refl ltac:(lia)).
    pose proof (Z.mod_pos_bound m 4 eq_refl). nia.
  - intros m Hm.
    pose proof (grid_fits _ _ bi bj m Hw Hh Hw4 Hh4 Hbi Hbj Hm). lia.
  - intros m c Hm Hc. apply get_beyond.
    pose proof (div_bounds m 4 4 eq_refl ltac:(lia)).
    pose proof (Z.mod_pos_bound m 4 eq_refl). nia.
  - intros m Hm.
    pose proof (grid_fits _ _ bi bj m Hw Hh Hw4 Hh4 Hbi Hbj Hm). lia.
Qed.

Lemma block_beyond_buffer_witness :
  (0 <= width truncatedImage /\ 0 <= height truncatedImage /\
   4 * (width truncatedImage * height truncatedImage) < 2 ^ 31 /\
   compress truncatedImage
   = JS.Returned (Some [140638110; 21845; 0x1082EF7D; 0]) /\
   0 <= 1 < height truncatedImage / 4 /\ 0 <= 0 < width truncatedImage / 4 /\
   Z.of_nat (length (data truncatedImage))
   <= 4 * (4 * 1 * width truncatedImage + 4 * 0)) /\
  [140638110; 21845; 0x1082EF7D; 0]
    !! Z.to_nat (2 * (1 * (width truncatedImage / 4) + 0)) = Some 0x1082EF7D /\
  [140638110; 21845; 0x1082EF7D; 0]
    !! Z.to_nat (2 * (1 * (width truncatedImage / 4) + 0) + 1) = Some 0.
Proof.
  assert (H1 : 0 <= width truncatedImage) by (vm_compute; discriminate).
  assert (H2 : 0 <= height truncatedImage) by (vm_compute; discriminate).
  assert (H3 : 4 * (width truncatedImage * height truncatedImage) < 2 ^ 31)
    by (vm_compute; reflexivity).
  assert (H4 : compress truncatedImage
               = JS.Returned (Some [140638110; 21845; 0x1082EF7D; 0]))
    by (vm_compute; reflexivity).
  assert (H5 : 0 <= 1 < height truncatedImage / 4)
    by (vm_compute; split; [discriminate | reflexivity]).
  assert (H6 : 0 <= 0 < width truncatedImage / 4)
    by (vm_compute; split; [discriminate | reflexivity]).
  assert (H7 : Z.of_nat (length (data truncatedImage))
               <= 4 * (4 * 1 * width truncatedImage + 4 * 0))
    by (vm_compute; discriminate).
  split; [tauto |].
  exact (block_beyond_buffer truncatedImage
           [140638110; 21845; 0x1082EF7D; 0] 1 0 H1 H2 H3 H4 H5 H6 H7).
Defined.

End Locality.

(* ===================================================================== *)
(** * Images stacked on one another *)

Section Stacking.

Lemma get_app_l (pre tail : list Z) o :
  o < Z.of_nat (length pre) -> JS.get (pre ++ tail) o = JS.get pre o.
Proof.
  intros Ho. unfold JS.get. destruct (Z.ltb_spec o 0); [reflexivity |].
  apply lookup_app_l. lia.
Qed.

(** A block of the upper image is read from the upper buffer alone. *)
Lemma blockCode_app_l d1 d2 w h bi bj :
  0 <= w -> 0 <= h -> w mod 4 = 0 -> h mod 4 = 0 ->
  Z.of_nat (length d1) = 4 * (w * h) -> 4 * (w * h) < 2 ^ 31 ->
  0 <= bi < h / 4 -> 0 <= bj < w / 4 ->
  blockCode (d1 ++ d2) w (4 * bi) (4 * bj) = blockCode d1 w (4 * bi) (4 * bj).
Proof.
  intros Hw Hh Hw4 Hh4 Hlen Hsize Hbi Hbj.
  assert (Hfit : forall m, 0 <= m < 16 ->
            0 <= (4 * bi + m / 4) * w + (4 * bj + m mod 4) /\
            4 * ((4 * bi + m / 4) * w + (4 * bj + m mod 4)) < 2 ^ 31).
  { intros m Hm.
    pose proof (grid_fits _ _ bi bj m Hw Hh Hw4 Hh4 Hbi Hbj Hm). lia. }
  apply blockCode_reads; [| exact Hfit | exact Hfit].
  intros m c Hm Hc. apply get_app_l.
  pose proof (grid_fits _ _ bi bj m Hw Hh Hw4 Hh4 Hbi Hbj Hm). lia.
Qed.

(** A block below the upper image is read from the lower buffer, at the
    same place counted from the first row of the lower image. *)
Lemma blockCode_app_r d1 d2 w h1 h2 bi bj :
  0 <= w -> 0 <= h1 -> 0 <= h2 ->
  w mod 4 = 0 -> h1 mod 4 = 0 -> h2 mod 4 = 0 ->
  Z.of_nat (length d1) = 4 * (w * h1) -> 4 * (w * (h1 + h2)) < 2 ^ 31 ->
  0 <= bi < h2 / 4 -> 0 <= bj < w / 4 ->
  blockCode (d1 ++ d2) w (4 * (h1 / 4 + bi)) (4 * bj)
  = blockCode d2 w (4 * bi) (4 * bj).
Proof.
  intros Hw Hh1 Hh2 Hw4 Hh14 Hh24 Hlen Hsize Hbi Hbj.
  pose proof (Z_div_exact_full_2 h1 4 ltac:(lia) Hh14) as E1.
  assert (Hfit : forall m, 0 <= m < 16 ->
            0 <= (4 * bi + m / 4) * w + (4 * bj + m mod 4) < w * h2).
  { intros m Hm. now apply grid_fits. }
  apply blockCode_reads.
  - intros m c Hm Hc. specialize (Hfit m Hm).
    replace (4 * ((4 * (h1 / 4 + bi) + m / 4) * w + (4 * bj + m mod 4)) + c)
      with (Z.of_nat (length d1)
            + (4 * ((4 * bi + m / 4) * w + (4 * bj + m mod 4)) + c))
      by (rewrite Hlen; set (b := h1 / 4) in *; nia).
    apply get_app_r. lia.
  - intros m Hm. specialize (Hfit m Hm).
    set (b := h1 / 4) in *.
    set (X := (4 * bi + m / 4) * w + (4 * bj + m mod 4)) in *.
    replace ((4 * (b + bi) + m / 4) * w + (4 * bj + m mod 4))
      with (w * h1 + X) by (unfold X; nia).
    nia.
  - intros m Hm. specialize (Hfit m Hm). nia.
Qed.

Lemma block_of_word a n p :
  0 <= p < 2 * (n * a) -> 0 <= n ->
  exists bi bj r,
    0 <= bi < n /\ 0 <= bj < a /\ 0 <= r < 2 /\ p = 2 * (bi * a + bj) + r.
Proof.
  intros Hp Hn.
  assert (Ha : 0 < a) by nia.
  exists (p / 2 / a), ((p / 2) mod a), (p mod 2).
  pose proof (Z.div_mod p 2 ltac:(lia)) as E2.
  pose proof (Z.mod_pos_bound p 2 eq_refl) as B2.
  pose proof (Z.div_mod (p / 2) a ltac:(lia)) as Ea.
  pose proof (Z.mod_pos_bound (p / 2) a Ha) as Ba.
  assert (0 <= p / 2) by (apply Z.div_pos; lia).
  assert (0 <= p / 2 / a) by (apply Z.div_pos; lia).
  assert (p / 2 / a < n).
  { apply Z.div_lt_upper_bound; [lia |].
    apply Z.div_lt_upper_bound; [lia |]. nia. }
  repeat split; lia.
Qed.

(** X10. Compressing two images of the same width stacked on one another
    gives the result for the upper image followed by the result for the
    lower one (for sizes whose byte offsets fit 31 bits, the upper buffer
    having its declared length). *)
Theorem compress_stack top bottom o1 o2 :
  0 <= width top -> 0 <= height top -> 0 <= height bottom ->
  width bottom = width top ->
  Z.of_nat (length (data top)) = 4 * (width top * height top) ->
  4 * (width top * (height top + height bottom)) < 2 ^ 31 ->
  compress top = JS.Returned (Some o1) ->
  compress bottom = JS.Returned (Some o2) ->
  compress (stackRows top bottom) = JS.Returned (Some (o1 ++ o2)).
Proof.
  intros Hw Hh1 Hh2 Ew Hlen Hsize Ho1 Ho2.
  destruct (compress_blocks top o1 Hw Hh1 Ho1) as (Hw4 & Hh14 & Hl1 & _).
  destruct (compress_blocks bottom o2 ltac:(lia) Hh2 Ho2)
    as (_ & Hh24 & Hl2 & _).
  rewrite Ew in Hl2.
  pose proof (Z_div_exact_full_2 _ 4 ltac:(lia) Hw4) as Eqw.
  pose proof (Z_div_exact_full_2 _ 4 ltac:(lia) Hh14) as Eq1.
  pose proof (Z_div_exact_full_2 _ 4 ltac:(lia) Hh24) as Eq2.
  assert (Hdiv : (height top + height bottom) / 4
                 = height top / 4 + height bottom / 4).
  { rewrite Eq1 at 1. rewrite Eq2 at 1.
    replace (4 * (height top / 4) + 4 * (height bottom / 4))
      with ((height top / 4 + height bottom / 4) * 4) by lia.
    apply Z.div_mul. lia. }
  assert (Hh4 : (height top + height bottom) mod 4 = 0).
  { rewrite Eq1, Eq2.
    replace (4 * (height top / 4) + 4 * (height bottom / 4))
      with ((height top / 4 + height bottom / 4) * 4) by lia.
    apply Z_mod_mult. }
  assert (Hs1 : width top * height top < 2 ^ 31) by nia.
  assert (Hs2 : width top * height bottom < 2 ^ 31) by nia.
  assert (Hs : width top * (height top + height bottom) < 2 ^ 31) by nia.
  rewrite word_count in Hl1, Hl2 by assumption.
  destruct (compress_returns (stackRows top bottom) Hw4 Hh4) as [o Ho];
    [cbn [stackRows width height]; nia |].
  assert (Ho' := Ho).
  apply compress_blocks in Ho' as (_ & _ & Hl & _); [| exact Hw | ];
    [| cbn [stackRows height]; lia].
  cbn [stackRows width height] in Hl.
  rewrite word_count, Hdiv in Hl by (assumption || lia).
  rewrite Ho. apply (f_equal JS.Returned), (f_equal Some).
  set (a := width top / 4) in *.
  set (b := height top / 4) in *.
  set (c := height bottom / 4) in *.
  assert (Ha : 0 <= a) by lia.
  assert (Hb : 0 <= b) by lia.
  assert (Hc : 0 <= c) by lia.
  assert (Hba : 0 <= b * a) by nia.
  assert (Hca : 0 <= c * a) by nia.
  apply list_eq. intros p.
  destruct (decide (Z.of_nat p < 2 * ((b + c) * a))) as [Hp | Hp].
  2: { rewrite !lookup_ge_None_2; [reflexivity | |].
       - rewrite length_app, Hl1, Hl2. lia.
       - rewrite Hl. lia. }
  destruct (block_of_word a (b + c) (Z.of_nat p) ltac:(lia) ltac:(lia))
    as (bi & bj & r & Hbi & Hbj & Hr & Hpos).
  assert (Hpn : p = Z.to_nat (2 * (bi * a + bj) + r)) by lia.
  destruct (compress_word (stackRows top bottom) o bi bj Hw
              ltac:(cbn [stackRows height]; lia) Hs Ho
              ltac:(cbn [stackRows height]; fold b c; lia) Hbj) as [A0 A1].
  cbn [stackRows width height data] in A0, A1. fold a in A0, A1.
  destruct (Z_lt_le_dec bi b) as [Htop | Hbot].
  - destruct (compress_word top o1 bi bj Hw Hh1 Hs1 Ho1 ltac:(fold b; lia) Hbj)
      as [B0 B1].
    fold a in B0, B1.
    rewrite (blockCode_app_l (data top) (data bottom) (width top) (height top)
               bi bj Hw Hh1 Hw4 Hh14 Hlen ltac:(nia) ltac:(fold b; lia) Hbj)
      in A0, A1.
    rewrite lookup_app_l by (rewrite Hl1; nia).
    assert (Hcase : r = 0 \/ r = 1) by lia.
    destruct Hcase as [-> | ->]; rewrite Hpn.
    + rewrite Z.add_0_r. now rewrite A0, B0.
    + now rewrite A1, B1.
  - destruct (compress_word bottom o2 (bi - b) bj ltac:(lia) Hh2
                ltac:(rewrite Ew; exact Hs2) Ho2 ltac:(fold c; lia)
                ltac:(rewrite Ew; exact Hbj)) as [B0 B1].
    rewrite Ew in B0, B1. fold a in B0, B1.
    replace (4 * bi) with (4 * (height top / 4 + (bi - b))) in A0, A1
      by (fold b; lia).
    rewrite (blockCode_app_r (data top) (data bottom) (width top)
               (height top) (height bottom) (bi - b) bj
               Hw Hh1 Hh2 Hw4 Hh14 Hh24 Hlen Hsize ltac:(fold c; lia) Hbj)
      in A0, A1.
    rewrite lookup_app_r by (rewrite Hl1; nia).
    rewrite Hl1.
    assert (Hcase : r = 0 \/ r = 1) by lia.
    destruct Hcase as [-> | ->].
    + replace (p - Z.to_nat (2 * (b * a)))%nat
        with (Z.to_nat (2 * ((bi - b) * a + bj))) by nia.
      rewrite B0, Hpn, Z.add_0_r. exact A0.
    + replace (p - Z.to_nat (2 * (b * a)))%nat
        with (Z.to_nat (2 * ((bi - b) * a + bj) + 1)) by nia.
      rewrite B1, Hpn. exact A1.
Qed.

Lemma compress_stack_witness :
  (0 <= width twoToneImage /\ 0 <= height twoToneImage /\
   0 <= height (solidImage 10 20 30) /\
   width (solidImage 10 20 30) = width twoToneImage /\
   Z.of_nat (length (data twoToneImage))
   = 4 * (width twoToneImage * height twoToneImage) /\
   4 * (width twoToneImage
        * (height twoToneImage + height (solidImage 10 20 30))) < 2 ^ 31 /\
   compress twoToneImage = JS.Returned (Some [140638110; 21845]) /\
   compress (solidImage 10 20 30) = JS.Returned (Some [144902307; 0])) /\
  compress (stackRows twoToneImage (solidImage 10 20 30))
  = JS.Returned (Some ([140638110; 21845] ++ [144902307; 0])).
Proof.
  assert (H1 : 0 <= width twoToneImage) by (vm_compute; discriminate).
  assert (H2 : 0 <= height twoToneImage) by (vm_compute; discriminate).
  assert (H3 : 0 <= height (solidImage 10 20 30))
    by (vm_compute; discriminate).
  assert (H4 : width (solidImage 10 20 30) = width twoToneImage)
    by reflexivity.
  assert (H5 : Z.of_nat (length (data twoToneImage))
               = 4 * (width twoToneImage * height twoToneImage))
    by (vm_compute; reflexivity).
  assert (H6 : 4 * (width twoToneImage
                    * (height twoToneImage + height (solidImage 10 20 30)))
               < 2 ^ 31) by (vm_compute; reflexivity).
  assert (H7 : compress twoToneImage = JS.Returned (Some [140638110; 21845]))
    by (vm_compute; reflexivity).
  assert (H8 : compress (solidImage 10 20 30)
               = JS.Returned (Some [144902307; 0]))
    by (vm_compute; reflexivity).
  split; [tauto |].
  exact (compress_stack twoToneImage (solidImage 10 20 30)
           [140638110; 21845] [144902307; 0] H1 H2 H3 H4 H5 H6 H7 H8).
Defined.

End Stacking.

(* ===================================================================== *)
(** * The shape of the returned buffer *)

Section Buffer.















End Buffer.

(* ===================================================================== *)
(** * Unpacking a value that is not a 16-bit colour *)

Section Masks.

Lemma and_mask x n :
  0 <= n < 31 -> 0 <= JS.and x (Z.ones n) < 2 ^ n.
Proof.
  intros Hn. unfold JS.and.
  assert (Hones : - 2 ^ 31 <= Z.ones n < 2 ^ 31).
  { rewrite Z.ones_equiv.
    pose proof (Z.pow_pos_nonneg 2 n ltac:(lia) ltac:(lia)).
    pose proof (Z.pow_lt_mono_r 2 n 31 ltac:(lia) ltac:(lia) ltac:(lia)).
    lia. }
  rewrite (toInt32_small (Z.ones n)) by exact Hones.
  rewrite Z.land_ones by lia. apply Z.mod_pos_bound.
  apply Z.pow_pos_nonneg; lia.
Qed.

Lemma shr_toInt32 c n : JS.shr (JS.toInt32 c) n = JS.shr c n.
Proof.
  unfold JS.shr. now rewrite (toInt32_small (JS.toInt32 c))
    by apply toInt32_range.
Qed.

Lemma lor_at_least a b n :
  0 <= n -> 2 ^ n <= a -> 0 <= b -> 2 ^ n <= Z.lor a b.
Proof.
  intros Hn Ha Hb.
  pose proof (Z.pow_pos_nonneg 2 n ltac:(lia) Hn) as Hpow.
  assert (Hnonneg : 0 <= Z.lor a b) by (apply Z.lor_nonneg; lia).
  destruct (Z_lt_le_dec (Z.lor a b) (2 ^ n)) as [Hlt |]; [exfalso | assumption].
  assert (Hz : Z.shiftr (Z.lor a b) n = 0).
  { rewrite Z.shiftr_div_pow2 by exact Hn. apply Z.div_small. lia. }
  rewrite Z.shiftr_lor in Hz. apply Z.lor_eq_0_iff in Hz as [Hz _].
  rewrite Z.shiftr_div_pow2 in Hz by exact Hn.
  apply Z.div_small_iff in Hz; lia.
Qed.

(** X14. The green and blue extractors mask their field, so they return a
    byte for every number; the red extractor does not mask: it returns a
    byte exactly when its argument, as a 32-bit integer, is a 16-bit
    colour. *)
Theorem unpack_masks c :
  byte (gFromRGB565 c) /\ byte (bFromRGB565 c) /\
  (byte (rFromRGB565 c) <-> rgb565 (JS.toInt32 c)).
Proof.
  unfold byte, rgb565. split; [| split].
  - unfold gFromRGB565. cbv zeta.
    pose proof (and_mask (JS.shr c 5) 6 ltac:(lia)) as Hg.
    change (Z.ones 6) with 0x3f in Hg. change (2 ^ 6) with 64 in Hg.
    rewrite widen6 by exact Hg.
    pose proof (div_bounds _ 16 4 eq_refl Hg). lia.
  - unfold bFromRGB565. cbv zeta.
    pose proof (and_mask c 5 ltac:(lia)) as Hb.
    change (Z.ones 5) with 0x1f in Hb. change (2 ^ 5) with 32 in Hb.
    rewrite widen5 by exact Hb.
    pose proof (div_bounds _ 4 8 eq_refl Hb). lia.
  - unfold rFromRGB565. cbv zeta. rewrite <- (shr_toInt32 c 11).
    pose proof (toInt32_range c) as Hy.
    set (y := JS.toInt32 c) in *.
    rewrite (shr_small y 11) by lia. change (2 ^ 11) with 2048.
    assert (Hr : - 2 ^ 20 <= y / 2048 < 2 ^ 20).
    { split.
      - apply Z.div_le_lower_bound; lia.
      - apply Z.div_lt_upper_bound; lia. }
    set (r := y / 2048) in *.
    assert (Hry : 0 <= r < 32 <-> 0 <= y < 65536).
    { unfold r. split; intros H.
      - split.
        + destruct (Z_lt_le_dec y 0) as [Hneg |]; [| assumption].
          assert (y / 2048 < 0) by (apply Z.div_lt_upper_bound; lia). lia.
        + destruct (Z_lt_le_dec y 65536) as [| Hbig]; [assumption |].
          assert (32 <= y / 2048) by (apply Z.div_le_lower_bound; lia). lia.
      - apply div_bounds; lia. }
    rewrite <- Hry. split.
    + intros Hbyte.
      rewrite (shl_small r 3), (shr_small r 2) in Hbyte by lia.
      change (2 ^ 3) with 8 in Hbyte. change (2 ^ 2) with 4 in Hbyte.
      assert (Hq : - 2 ^ 20 <= r / 4 < 2 ^ 20).
      { split.
        - apply Z.div_le_lower_bound; lia.
        - apply Z.div_lt_upper_bound; lia. }
      rewrite or_small in Hbyte by lia.
      destruct (Z_lt_le_dec r 0) as [Hneg | Hpos].
      * assert (Z.lor (r * 8) (r / 4) < 0) by (apply Z.lor_neg; lia). lia.
      * destruct (Z_lt_le_dec r 32) as [| Hbig]; [lia |].
        assert (0 <= r / 4) by (apply Z.div_pos; lia).
        pose proof (lor_at_least (r * 8) (r / 4) 8 ltac:(lia)
                      ltac:(change (2 ^ 8) with 256; lia) ltac:(lia)) as Hge.
        change (2 ^ 8) with 256 in Hge. lia.
    + intros Hsmall. rewrite widen5 by exact Hsmall.
      pose proof (div_bounds r 4 8 eq_refl Hsmall). lia.
Qed.

End Masks.
